(** * Contour: object store, route translation and notification primitive

    A shallow embedding of the parts of Contour that filter Kubernetes
    objects into the [KubernetesCache] (package [dag]), translate DAG
    routes into Envoy route actions (package [envoy]) and wake discovery
    streams ([contour.Cond], [contour.EventHandler]).

    Conventions.
    - Go [string] is [string]; Go maps are [gmap]s, a [nil] map and an
      empty map are both [∅] (the code only reads, writes and ranges over
      them, which does not tell the two apart).
    - [uint32] and [int]/[int64]/[time.Duration] values are [Z] with the
      wrap-around written where the code does arithmetic.
    - A pointer that the code tests against [nil] is an [option]; other
      pointers are the value they point to.
    - Ranging over a Go map has no fixed order; the code below ranges only
      to search or to collect, and uses [map_to_list]. *)

From Stdlib Require Import Ascii String.
From stdpp Require Import base numbers strings list gmap fin_maps sorting.

Local Open Scope Z_scope.

(** ** Kubernetes API objects (k8s.io/api, k8s.io/apimachinery)

    Only the fields that the cache, the comparison in [onUpdate] and the
    claims read are kept. *)
Module k8s.

Record ObjectMeta := {
  Name : string;
  Namespace : string;
  Annotations : gmap string string;
  ResourceVersion : string
}.

#[global] Instance ObjectMeta_eq_dec : EqDecision ObjectMeta.
Proof. solve_decision. Defined.

(** [v1.Secret] *)
Record Secret := {
  secret_meta : ObjectMeta;
  secret_Type : string;
  secret_Data : gmap string string
}.

#[global] Instance Secret_eq_dec : EqDecision Secret.
Proof. solve_decision. Defined.

Definition SecretTypeServiceAccountToken : string :=
  "kubernetes.io/service-account-token".
Definition SecretTypeTLS : string := "kubernetes.io/tls".

(** [v1.Service]; [svc_Status] stands for [ServiceStatus] (the load
    balancer ingress points). *)
Record Service := {
  svc_meta : ObjectMeta;
  svc_Ports : list Z;
  svc_Status : list string
}.

#[global] Instance Service_eq_dec : EqDecision Service.
Proof. solve_decision. Defined.

(** [v1beta1.Ingress] *)
Record IngressBackend := {
  ServiceName : string;
  ServicePort : string
}.

#[global] Instance IngressBackend_eq_dec : EqDecision IngressBackend.
Proof. solve_decision. Defined.

Record IngressTLS := {
  tls_Hosts : list string;
  tls_SecretName : string
}.

#[global] Instance IngressTLS_eq_dec : EqDecision IngressTLS.
Proof. solve_decision. Defined.

Record HTTPIngressPath := {
  path_Path : string;
  path_Backend : IngressBackend
}.

#[global] Instance HTTPIngressPath_eq_dec : EqDecision HTTPIngressPath.
Proof. solve_decision. Defined.

Record IngressRule := {
  rule_Host : string;
  (* rule.IngressRuleValue.HTTP, nil or the list of its Paths *)
  rule_HTTP : option (list HTTPIngressPath)
}.

#[global] Instance IngressRule_eq_dec : EqDecision IngressRule.
Proof. solve_decision. Defined.

Record IngressSpec := {
  Backend : option IngressBackend;
  TLS : list IngressTLS;
  Rules : list IngressRule
}.

#[global] Instance IngressSpec_eq_dec : EqDecision IngressSpec.
Proof. solve_decision. Defined.

Record Ingress := {
  ing_meta : ObjectMeta;
  ing_Spec : IngressSpec;
  ing_Status : list string
}.

#[global] Instance Ingress_eq_dec : EqDecision Ingress.
Proof. solve_decision. Defined.

End k8s.

(** ** Contour API objects (apis/contour/v1beta1, apis/projectcontour/v1alpha1) *)
Module apis.

(** Modelled from the spec: the declarations of [TLS], [VirtualHost],
    [Service], [Route] and [TCPProxy] of the IngressRoute and HTTPProxy
    API packages are not among the sources; a root is a resource that
    declares a virtual host, which may carry a TLS spec naming a secret,
    and routes and the TCP proxy name services.  The fields are those the
    cache reads. *)
Record TLS := {
  tls_SecretName : string;
  tls_MinimumProtocolVersion : string
}.

#[global] Instance TLS_eq_dec : EqDecision TLS.
Proof. solve_decision. Defined.

Record VirtualHost := {
  Fqdn : string;
  vh_TLS : option TLS
}.

#[global] Instance VirtualHost_eq_dec : EqDecision VirtualHost.
Proof. solve_decision. Defined.

Record Service := {
  svc_Name : string;
  svc_Port : Z;
  svc_Weight : Z
}.

#[global] Instance Service_eq_dec : EqDecision Service.
Proof. solve_decision. Defined.

Record Route := {
  Match : string;
  Services : list Service;
  PermitInsecure : bool
}.

#[global] Instance Route_eq_dec : EqDecision Route.
Proof. solve_decision. Defined.

Record TCPProxy := {
  tcp_Services : list Service
}.

#[global] Instance TCPProxy_eq_dec : EqDecision TCPProxy.
Proof. solve_decision. Defined.

Record Spec := {
  spec_VirtualHost : option VirtualHost;
  spec_Routes : list Route;
  spec_TCPProxy : option TCPProxy
}.

#[global] Instance Spec_eq_dec : EqDecision Spec.
Proof. solve_decision. Defined.

(** Modelled from the spec: the status of a root candidate is a code
    (valid, invalid, orphaned) and a description; the declaration of
    [Status] is not among the sources. *)
Record Status := {
  CurrentStatus : string;
  Description : string
}.

#[global] Instance Status_eq_dec : EqDecision Status.
Proof. solve_decision. Defined.

(** Modelled from the spec: [IngressRoute] (apis/contour/v1beta1, not
    among the sources): metadata, spec and the status that the status
    writer sets. *)
Record IngressRoute := {
  ir_meta : k8s.ObjectMeta;
  ir_Spec : Spec;
  ir_Status : Status
}.

#[global] Instance IngressRoute_eq_dec : EqDecision IngressRoute.
Proof. solve_decision. Defined.

(** Modelled from the spec: [HTTPProxy] (apis/projectcontour/v1alpha1,
    whose type declarations are not among the sources): the same shape
    as [IngressRoute]. *)
Record HTTPProxy := {
  hp_meta : k8s.ObjectMeta;
  hp_Spec : Spec;
  hp_Status : Status
}.

#[global] Instance HTTPProxy_eq_dec : EqDecision HTTPProxy.
Proof. solve_decision. Defined.

(** Modelled from the spec: a TLSCertificateDelegation permits the
    namespaces in [TargetNamespaces] (or all of them, for the target
    [*]) to refer to the secret [SecretName]; the declarations are not
    among the sources.  Both API groups declare the same shape. *)
Record CertificateDelegation := {
  SecretName : string;
  TargetNamespaces : list string
}.

#[global] Instance CertificateDelegation_eq_dec : EqDecision CertificateDelegation.
Proof. solve_decision. Defined.

Record TLSCertificateDelegation := {
  del_meta : k8s.ObjectMeta;
  Delegations : list CertificateDelegation
}.

#[global] Instance TLSCertificateDelegation_eq_dec : EqDecision TLSCertificateDelegation.
Proof. solve_decision. Defined.

End apis.

(** ** Package dag: the object store *)
Module dag.
Import k8s apis.

Definition DEFAULT_INGRESS_CLASS : string := "contour".

(** [Meta] holds the name and namespace of a Kubernetes object. *)
Record Meta := { name : string; namespace : string }.

#[global] Instance Meta_eq_dec : EqDecision Meta.
Proof. solve_decision. Defined.

#[global] Instance Meta_countable : Countable Meta :=
  inj_countable'
    (fun m => (name m, namespace m))
    (fun p => {| name := p.1; namespace := p.2 |})
    (fun m => match m with Build_Meta _ _ => eq_refl end).

(** The values that reach [Insert] and [Remove] as [interface{}]: a
    pointer to one of the seven kinds the cache knows, a tombstone
    ([cache.DeletedFinalStateUnknown]) around another value, or anything
    else (the [default] arm of the type switches). *)
Inductive Object :=
| ObjSecret (s : k8s.Secret)
| ObjService (s : k8s.Service)
| ObjIngress (i : k8s.Ingress)
| ObjIngressRoute (ir : IngressRoute)
| ObjHTTPProxy (p : HTTPProxy)
| ObjIRDelegation (d : TLSCertificateDelegation)
| ObjHPDelegation (d : TLSCertificateDelegation)
| ObjDeletedFinalStateUnknown (key : string) (obj : Object)
| ObjOther (kind : string) (m : ObjectMeta).

#[global] Instance Object_eq_dec : EqDecision Object.
Proof. solve_decision. Defined.

(** A [KubernetesCache] holds Kubernetes objects and associated
    configuration.  The embedded logger only writes log lines and is
    left out. *)
Record KubernetesCache := {
  RootNamespaces : list string;
  IngressClass : string;
  ingresses : gmap Meta k8s.Ingress;
  ingressroutes : gmap Meta IngressRoute;
  httpproxies : gmap Meta HTTPProxy;
  secrets : gmap Meta k8s.Secret;
  irdelegations : gmap Meta TLSCertificateDelegation;
  httpproxydelegations : gmap Meta TLSCertificateDelegation;
  services : gmap Meta k8s.Service
}.

Definition with_ingresses (f : gmap Meta k8s.Ingress -> gmap Meta k8s.Ingress)
    (kc : KubernetesCache) : KubernetesCache :=
  {| RootNamespaces := RootNamespaces kc; IngressClass := IngressClass kc;
     ingresses := f (ingresses kc); ingressroutes := ingressroutes kc;
     httpproxies := httpproxies kc; secrets := secrets kc;
     irdelegations := irdelegations kc;
     httpproxydelegations := httpproxydelegations kc;
     services := services kc |}.

Definition with_ingressroutes (f : gmap Meta IngressRoute -> gmap Meta IngressRoute)
    (kc : KubernetesCache) : KubernetesCache :=
  {| RootNamespaces := RootNamespaces kc; IngressClass := IngressClass kc;
     ingresses := ingresses kc; ingressroutes := f (ingressroutes kc);
     httpproxies := httpproxies kc; secrets := secrets kc;
     irdelegations := irdelegations kc;
     httpproxydelegations := httpproxydelegations kc;
     services := services kc |}.

Definition with_httpproxies (f : gmap Meta HTTPProxy -> gmap Meta HTTPProxy)
    (kc : KubernetesCache) : KubernetesCache :=
  {| RootNamespaces := RootNamespaces kc; IngressClass := IngressClass kc;
     ingresses := ingresses kc; ingressroutes := ingressroutes kc;
     httpproxies := f (httpproxies kc); secrets := secrets kc;
     irdelegations := irdelegations kc;
     httpproxydelegations := httpproxydelegations kc;
     services := services kc |}.

Definition with_secrets (f : gmap Meta k8s.Secret -> gmap Meta k8s.Secret)
    (kc : KubernetesCache) : KubernetesCache :=
  {| RootNamespaces := RootNamespaces kc; IngressClass := IngressClass kc;
     ingresses := ingresses kc; ingressroutes := ingressroutes kc;
     httpproxies := httpproxies kc; secrets := f (secrets kc);
     irdelegations := irdelegations kc;
     httpproxydelegations := httpproxydelegations kc;
     services := services kc |}.

Definition with_irdelegations
    (f : gmap Meta TLSCertificateDelegation -> gmap Meta TLSCertificateDelegation)
    (kc : KubernetesCache) : KubernetesCache :=
  {| RootNamespaces := RootNamespaces kc; IngressClass := IngressClass kc;
     ingresses := ingresses kc; ingressroutes := ingressroutes kc;
     httpproxies := httpproxies kc; secrets := secrets kc;
     irdelegations := f (irdelegations kc);
     httpproxydelegations := httpproxydelegations kc;
     services := services kc |}.

Definition with_httpproxydelegations
    (f : gmap Meta TLSCertificateDelegation -> gmap Meta TLSCertificateDelegation)
    (kc : KubernetesCache) : KubernetesCache :=
  {| RootNamespaces := RootNamespaces kc; IngressClass := IngressClass kc;
     ingresses := ingresses kc; ingressroutes := ingressroutes kc;
     httpproxies := httpproxies kc; secrets := secrets kc;
     irdelegations := irdelegations kc;
     httpproxydelegations := f (httpproxydelegations kc);
     services := services kc |}.

Definition with_services (f : gmap Meta k8s.Service -> gmap Meta k8s.Service)
    (kc : KubernetesCache) : KubernetesCache :=
  {| RootNamespaces := RootNamespaces kc; IngressClass := IngressClass kc;
     ingresses := ingresses kc; ingressroutes := ingressroutes kc;
     httpproxies := httpproxies kc; secrets := secrets kc;
     irdelegations := irdelegations kc;
     httpproxydelegations := httpproxydelegations kc;
     services := f (services kc) |}.

Definition toMeta (m : ObjectMeta) : Meta :=
  {| name := Name m; namespace := Namespace m |}.

(** The values a [range] over a Go map visits. *)
Definition range {V : Type} (m : gmap Meta V) : list V := (map_to_list m).*2.

(** [ingressClass] returns the first matching ingress class annotation:
    projectcontour.io/ingress.class, contour.heptio.com/ingress.class,
    kubernetes.io/ingress.class. *)
Definition ingressClass (m : ObjectMeta) : string :=
  let a := Annotations m in
  match a !! "projectcontour.io/ingress.class" with
  | Some class => class
  | None =>
    match a !! "contour.heptio.com/ingress.class" with
    | Some class => class
    | None =>
      match a !! "kubernetes.io/ingress.class" with
      | Some class => class
      | None => ""
      end
    end
  end.

(** Modelled from the spec: [stringOrDefault] is not among the sources;
    the configured [IngressClass] is a string whose default is
    [contour], which the method's comment words as "the IngressClass or
    DEFAULT_INGRESS_CLASS if not configured". *)
Definition stringOrDefault (s def : string) : string :=
  if String.eqb s "" then def else s.

Definition kc_ingressClass (kc : KubernetesCache) : string :=
  stringOrDefault (IngressClass kc) DEFAULT_INGRESS_CLASS.

(** *** serviceTriggersRebuild *)

Definition ingress_names_service (svcname : string) (i : k8s.Ingress) : bool :=
  match Backend (ing_Spec i) with
  | Some backend => String.eqb (ServiceName backend) svcname
  | None => false
  end
  || existsb (fun rule =>
        match rule_HTTP rule with
        | None => false
        | Some paths =>
            existsb (fun path => String.eqb (ServiceName (path_Backend path)) svcname)
                    paths
        end) (Rules (ing_Spec i)).

Definition spec_names_service (svcname : string) (s : Spec) : bool :=
  existsb (fun route =>
      existsb (fun s => String.eqb (svc_Name s) svcname) (Services route))
    (spec_Routes s)
  || match spec_TCPProxy s with
     | Some tcpproxy =>
         existsb (fun s => String.eqb (svc_Name s) svcname) (tcp_Services tcpproxy)
     | None => false
     end.

(** [serviceTriggersRebuild] returns true if this service is referenced
    by an Ingress, IngressRoute or HTTPProxy in this cache. *)
Definition serviceTriggersRebuild (kc : KubernetesCache) (service : k8s.Service) : bool :=
  let ns := Namespace (svc_meta service) in
  let nm := Name (svc_meta service) in
  existsb (fun ingress =>
      String.eqb (Namespace (ing_meta ingress)) ns
      && ingress_names_service nm ingress) (range (ingresses kc))
  || existsb (fun ir =>
      String.eqb (Namespace (ir_meta ir)) ns
      && spec_names_service nm (ir_Spec ir)) (range (ingressroutes kc))
  || existsb (fun ir =>
      String.eqb (Namespace (hp_meta ir)) ns
      && spec_names_service nm (hp_Spec ir)) (range (httpproxies kc)).

(** *** secretTriggersRebuild *)

(** The keys [targetnamespace/secretname] that one delegation object
    adds to the local [delegations] map. *)
Definition delegation_keys (d : TLSCertificateDelegation) : list string :=
  cd ← Delegations d;
  n ← TargetNamespaces cd;
  [n +:+ "/" +:+ SecretName cd].

(** The merge of both kinds of TLSCertificateDelegation: the key set of
    the [map[string]bool] the function builds (every stored value is
    [true]). *)
Definition delegations (kc : KubernetesCache) : gset string :=
  list_to_set (range (irdelegations kc) ≫= delegation_keys)
  ∪ list_to_set (range (httpproxydelegations kc) ≫= delegation_keys).

Definition delegated (ds : gset string) (key : string) : bool :=
  bool_decide (key ∈ ds).

Definition ingress_names_secret (ds : gset string) (secret : k8s.Secret)
    (ingress : k8s.Ingress) : bool :=
  let sns := Namespace (secret_meta secret) in
  let snm := Name (secret_meta secret) in
  let ins := Namespace (ing_meta ingress) in
  let tlss := k8s.TLS (ing_Spec ingress) in
  (String.eqb ins sns
    && existsb (fun tls => String.eqb (k8s.tls_SecretName tls) snm) tlss)
  || (delegated ds (ins +:+ "/" +:+ snm)
    && existsb (fun tls => String.eqb (k8s.tls_SecretName tls) (sns +:+ "/" +:+ snm)) tlss)
  || (delegated ds ("*/" +:+ snm)
    && existsb (fun tls => String.eqb (k8s.tls_SecretName tls) (sns +:+ "/" +:+ snm)) tlss).

(** The body of the loops over IngressRoutes and HTTPProxies: [rns] is
    the namespace of the object, [s] its spec. *)
Definition root_names_secret (ds : gset string) (secret : k8s.Secret)
    (rns : string) (s : Spec) : bool :=
  let sns := Namespace (secret_meta secret) in
  let snm := Name (secret_meta secret) in
  match spec_VirtualHost s with
  | None => false (* not a root ingress *)
  | Some vh =>
    match vh_TLS vh with
    | None => false (* no tls spec *)
    | Some tls =>
      (String.eqb rns sns && String.eqb (apis.tls_SecretName tls) snm)
      || (delegated ds (rns +:+ "/" +:+ snm)
          && String.eqb (apis.tls_SecretName tls) (sns +:+ "/" +:+ snm))
      || (delegated ds ("*/" +:+ snm)
          && String.eqb (apis.tls_SecretName tls) (sns +:+ "/" +:+ snm))
    end
  end.

(** [secretTriggersRebuild] returns true if this secret is referenced by
    an Ingress, IngressRoute or HTTPProxy in this cache.  If the secret
    is not in the same namespace it must be mentioned by a
    TLSCertificateDelegation. *)
Definition secretTriggersRebuild (kc : KubernetesCache) (secret : k8s.Secret) : bool :=
  if bool_decide (is_Some (secret_Data secret !! "ca.crt")) then
    (* assume that any change to a CA secret will trigger a rebuild *)
    true
  else
    let ds := delegations kc in
    existsb (ingress_names_secret ds secret) (range (ingresses kc))
    || existsb (fun ir => root_names_secret ds secret (Namespace (ir_meta ir)) (ir_Spec ir))
         (range (ingressroutes kc))
    || existsb (fun proxy =>
           root_names_secret ds secret (Namespace (hp_meta proxy)) (hp_Spec proxy))
         (range (httpproxies kc)).

(** *** Insert and Remove *)

(** [Insert] inserts [obj] into the cache.  The result is the boolean
    the method returns and the cache afterwards. *)
Definition Insert (kc : KubernetesCache) (obj : Object) : bool * KubernetesCache :=
  match obj with
  | ObjSecret obj =>
    if String.eqb (secret_Type obj) SecretTypeServiceAccountToken then
      (false, kc)
    else if negb (String.eqb (secret_Type obj) SecretTypeTLS)
            && negb (bool_decide (is_Some (secret_Data obj !! "ca.crt"))) then
      (false, kc)
    else
      let kc' := with_secrets <[toMeta (secret_meta obj) := obj]> kc in
      (secretTriggersRebuild kc' obj, kc')
  | ObjService obj =>
    let kc' := with_services <[toMeta (svc_meta obj) := obj]> kc in
    (serviceTriggersRebuild kc' obj, kc')
  | ObjIngress obj =>
    let class := ingressClass (ing_meta obj) in
    if negb (String.eqb class "") && negb (String.eqb class (kc_ingressClass kc)) then
      (false, kc)
    else (true, with_ingresses <[toMeta (ing_meta obj) := obj]> kc)
  | ObjIngressRoute obj =>
    let class := ingressClass (ir_meta obj) in
    if negb (String.eqb class "") && negb (String.eqb class (kc_ingressClass kc)) then
      (false, kc)
    else (true, with_ingressroutes <[toMeta (ir_meta obj) := obj]> kc)
  | ObjHTTPProxy obj =>
    let class := ingressClass (hp_meta obj) in
    if negb (String.eqb class "") && negb (String.eqb class (kc_ingressClass kc)) then
      (false, kc)
    else (true, with_httpproxies <[toMeta (hp_meta obj) := obj]> kc)
  | ObjIRDelegation obj =>
    (true, with_irdelegations <[toMeta (del_meta obj) := obj]> kc)
  | ObjHPDelegation obj =>
    (true, with_httpproxydelegations <[toMeta (del_meta obj) := obj]> kc)
  | _ =>
    (* not an interesting object *)
    (false, kc)
  end.

(** [remove]: delete by [Meta]; the result tells whether the key was
    present. *)
Definition remove (kc : KubernetesCache) (obj : Object) : bool * KubernetesCache :=
  match obj with
  | ObjSecret obj =>
    let m := toMeta (secret_meta obj) in
    (bool_decide (is_Some (secrets kc !! m)), with_secrets (delete m) kc)
  | ObjService obj =>
    let m := toMeta (svc_meta obj) in
    (bool_decide (is_Some (services kc !! m)), with_services (delete m) kc)
  | ObjIngress obj =>
    let m := toMeta (ing_meta obj) in
    (bool_decide (is_Some (ingresses kc !! m)), with_ingresses (delete m) kc)
  | ObjIngressRoute obj =>
    let m := toMeta (ir_meta obj) in
    (bool_decide (is_Some (ingressroutes kc !! m)), with_ingressroutes (delete m) kc)
  | ObjHTTPProxy obj =>
    let m := toMeta (hp_meta obj) in
    (bool_decide (is_Some (httpproxies kc !! m)), with_httpproxies (delete m) kc)
  | ObjIRDelegation obj =>
    let m := toMeta (del_meta obj) in
    (bool_decide (is_Some (irdelegations kc !! m)), with_irdelegations (delete m) kc)
  | ObjHPDelegation obj =>
    let m := toMeta (del_meta obj) in
    (bool_decide (is_Some (httpproxydelegations kc !! m)),
     with_httpproxydelegations (delete m) kc)
  | _ =>
    (* not interesting *)
    (false, kc)
  end.

(** [Remove] unwraps tombstones and then removes. *)
Fixpoint Remove (kc : KubernetesCache) (obj : Object) : bool * KubernetesCache :=
  match obj with
  | ObjDeletedFinalStateUnknown _ o => Remove kc o
  | _ => remove kc obj
  end.

(** *** The DAG vertices (dag.go) *)

(** [TimeoutPolicy]: a timeout of zero implies "use envoy's default", a
    timeout of -1 represents "infinity".  [Timeout] is a
    [time.Duration], a signed 64-bit count of nanoseconds. *)
Record TimeoutPolicy := { Timeout : Z }.

(** [RetryPolicy]: [NumRetries] is a [uint32], [PerTryTimeout] a
    [time.Duration]. *)
Record RetryPolicy := {
  RetryOn : string;
  NumRetries : Z;
  PerTryTimeout : Z
}.

(** [Service] represents a single Kubernetes Service's port.  The
    embedded [*v1.ServicePort] is kept as its [Port]. *)
Record Service := {
  Service_Name : string;
  Service_Namespace : string;
  Service_Port : Z;
  Protocol : string;
  MaxConnections : Z;
  MaxPendingRequests : Z;
  MaxRequests : Z;
  MaxRetries : Z;
  ExternalName : string
}.

(** [Secret] is a leaf that wraps the Kubernetes secret. *)
Record Secret := { Secret_Object : k8s.Secret }.

Record UpstreamValidation := {
  CACertificate : Secret;
  SubjectName : string
}.

Record HealthCheckPolicy := {
  hc_Path : string;
  hc_Host : string;
  hc_Interval : Z;
  hc_Timeout : Z;
  UnhealthyThreshold : Z;
  HealthyThreshold : Z
}.

(** [Cluster]: [Weight] is a [uint32]. *)
Record Cluster := {
  Upstream : Service;
  Weight : Z;
  Cluster_UpstreamValidation : option UpstreamValidation;
  LoadBalancerStrategy : string;
  Cluster_HealthCheckPolicy : option HealthCheckPolicy
}.

(** [Route] defines the properties of a route to a Cluster. *)
Record Route := {
  Clusters : list Cluster;
  HTTPSUpgrade : bool;
  Websocket : bool;
  Route_TimeoutPolicy : option TimeoutPolicy;
  Route_RetryPolicy : option RetryPolicy;
  PrefixRewrite : string
}.

Record PrefixRoute := { Prefix : string; PrefixRoute_Route : Route }.
Record RegexRoute := { Regex : string; RegexRoute_Route : Route }.

Record TCPProxy := { TCPProxy_Clusters : list Cluster }.

(** The dynamic types that implement the interface [Vertex] (they have
    a [Visit] method).  A [VirtualHost] holds its routes in a
    [map[string]Vertex]; a [SecureVirtualHost] embeds a [VirtualHost]
    (name and routes) and adds the minimum TLS version, the secret and
    the TCP proxy. *)
#[warnings="-register-all"] Inductive Vertex :=
| VPrefixRoute (r : PrefixRoute)
| VRegexRoute (r : RegexRoute)
| VRoute (r : Route)
| VVirtualHost (Name : string) (routes : gmap string Vertex)
| VSecureVirtualHost (Name : string) (routes : gmap string Vertex)
    (MinProtoVersion : Z) (secret : option Secret) (tcpproxy : option TCPProxy)
| VListener (Address : string) (Port : Z) (VirtualHosts : list Vertex)
| VTCPProxy (t : TCPProxy)
| VService (s : Service)
| VCluster (c : Cluster)
| VSecret (s : Secret).

(** A [VirtualHost] represents a named L4/L7 service. *)
Record VirtualHost := {
  VirtualHost_Name : string;
  routes : gmap string Vertex
}.

(** The outcome of a call that may panic. *)
Inductive outcome (A : Type) :=
| Returns (a : A)
| Panics (msg : string).
Arguments Returns {A} a.
Arguments Panics {A} msg.

(** [addRoute] stores a prefix route under its prefix and a regex route
    under its regex, and panics on any other vertex.  The result is the
    virtual host afterwards. *)
Definition addRoute (v : VirtualHost) (route : Vertex) : outcome VirtualHost :=
  match route with
  | VPrefixRoute r =>
      Returns {| VirtualHost_Name := VirtualHost_Name v;
                 routes := <[Prefix r := route]> (routes v) |}
  | VRegexRoute r =>
      Returns {| VirtualHost_Name := VirtualHost_Name v;
                 routes := <[Regex r := route]> (routes v) |}
  | _ => Panics "unexpected route type"
  end.

(** A [VirtualHost] is valid if it has at least one route. *)
Definition Valid (v : VirtualHost) : bool := bool_decide (0 < size (routes v))%nat.

End dag.

(** ** Package envoy: translation of DAG routes into route actions *)
Module envoy.

(** [uint32] arithmetic wraps modulo 2^32. *)
Definition uint32 (z : Z) : Z := z mod 2 ^ 32.

(** [wrappers.UInt32Value] *)
Record UInt32Value := { Value : Z }.

(** Modelled from the spec: [protobuf.UInt32] (internal/protobuf is not
    among the sources) wraps a number for the wire, so that an emitted
    weight or retry count is the number given. *)
Definition protobuf_UInt32 (v : Z) : UInt32Value := {| Value := v |}.

(** [envoy_api_v2_route.RetryPolicy]; [duration] is the wire type of
    durations. *)
Record RetryPolicy (duration : Type) := {
  RetryOn : string;
  NumRetries : option UInt32Value;
  PerTryTimeout : option duration
}.
Arguments RetryOn {duration} _.
Arguments NumRetries {duration} _.
Arguments PerTryTimeout {duration} _.

(** [envoy_api_v2_route.WeightedCluster_ClusterWeight] *)
Record ClusterWeight := {
  Name : string;
  Weight : UInt32Value
}.

(** [envoy_api_v2_route.WeightedCluster] *)
Record WeightedCluster := {
  Clusters : list ClusterWeight;
  TotalWeight : UInt32Value
}.

(** [RouteAction_HashPolicy] with its cookie specifier. *)
Record HashPolicy_Cookie (duration : Type) := {
  Cookie_Name : string;
  Cookie_Ttl : duration;
  Cookie_Path : string
}.

Inductive ClusterSpecifier :=
| RouteAction_Cluster (Cluster : string)
| RouteAction_WeightedClusters (WeightedClusters : WeightedCluster).

(** [envoy_api_v2_route.RouteAction]; an upgrade config is kept as its
    [UpgradeType]. *)
Record RouteAction (duration : Type) := {
  RouteAction_RetryPolicy : option (RetryPolicy duration);
  RouteAction_Timeout : option duration;
  RouteAction_PrefixRewrite : string;
  RouteAction_HashPolicy : list (HashPolicy_Cookie duration);
  UpgradeConfigs : list string;
  RouteAction_ClusterSpecifier : ClusterSpecifier
}.
Arguments RouteAction_RetryPolicy {duration} _.
Arguments RouteAction_Timeout {duration} _.
Arguments RouteAction_PrefixRewrite {duration} _.
Arguments RouteAction_HashPolicy {duration} _.
Arguments UpgradeConfigs {duration} _.
Arguments RouteAction_ClusterSpecifier {duration} _.

(** [clusterWeightByName.Less]: by name, and by weight among equal names.
    Go compares strings byte by byte. *)
Definition Less (a b : ClusterWeight) : bool :=
  if String.eqb (Name a) (Name b) then Value (Weight a) <? Value (Weight b)
  else String.ltb (Name a) (Name b).

(** [sort.Stable]: the sorted arrangement in which elements that are not
    ordered by [less] keep their relative order, built by inserting each
    element in front of the sorted rest, behind the elements less than
    it. *)
Fixpoint stable_insert {A : Type} (less : A -> A -> bool) (x : A) (l : list A) : list A :=
  match l with
  | [] => [x]
  | y :: l' => if less y x then y :: stable_insert less x l' else x :: l
  end.

Definition sort_Stable {A : Type} (less : A -> A -> bool) (l : list A) : list A :=
  foldr (stable_insert less) [] l.

Section Translator.

(** The helpers of this repository that the translator calls and that
    are not among the sources: [protobuf.Duration], which converts a
    [time.Duration] into the wire's duration message, and [Clustername],
    which computes the name of a cluster. *)
Context {duration : Type}.
Variable protobuf_Duration : Z -> duration.
Variable Clustername : dag.Cluster -> string.

(** [hashPolicy] returns a cookie hash policy iff at least one of the
    route's clusters uses the Cookie load balancing strategy. *)
Definition hashPolicy (r : dag.Route) : list (HashPolicy_Cookie duration) :=
  if existsb (fun c => String.eqb (dag.LoadBalancerStrategy c) "Cookie") (dag.Clusters r)
  then [ {| Cookie_Name := "X-Contour-Session-Affinity";
            Cookie_Ttl := protobuf_Duration 0;
            Cookie_Path := "/" |} ]
  else [].

Definition timeout (r : dag.Route) : option duration :=
  match dag.Route_TimeoutPolicy r with
  | None => None
  | Some p =>
    if dag.Timeout p =? 0 then
      (* no timeout specified *)
      None
    else if dag.Timeout p =? -1 then
      (* infinite timeout, a zero value tells envoy "infinite timeout" *)
      Some (protobuf_Duration 0)
    else Some (protobuf_Duration (dag.Timeout p))
  end.

Definition retryPolicy (r : dag.Route) : option (RetryPolicy duration) :=
  match dag.Route_RetryPolicy r with
  | None => None
  | Some p =>
    if String.eqb (dag.RetryOn p) "" then None
    else
      Some {| RetryOn := dag.RetryOn p;
              NumRetries :=
                if 0 <? dag.NumRetries p
                then Some (protobuf_UInt32 (dag.NumRetries p)) else None;
              PerTryTimeout :=
                if 0 <? dag.PerTryTimeout p
                then Some (protobuf_Duration (dag.PerTryTimeout p)) else None |}
  end.

(** [weightedClusters] returns a [WeightedCluster] for multiple
    services. *)
Definition weightedClusters (clusters : list dag.Cluster) : WeightedCluster :=
  let total := foldl (fun total cluster => uint32 (total + dag.Weight cluster)) 0 clusters in
  let wcs := map (fun cluster =>
                    {| Name := Clustername cluster;
                       Weight := protobuf_UInt32 (dag.Weight cluster) |}) clusters in
  (* Check if no weights were defined, if not default to even distribution *)
  let wcs' := if total =? 0
              then map (fun c => {| Name := Name c; Weight := {| Value := 1 |} |}) wcs
              else wcs in
  let total' := if total =? 0 then uint32 (Z.of_nat (length clusters)) else total in
  {| Clusters := sort_Stable Less wcs';
     TotalWeight := protobuf_UInt32 total' |}.

(** [RouteRoute] creates the route action for the clusters of a route:
    a single cluster, or a weighted cluster when there is not exactly
    one. *)
Definition RouteRoute (r : dag.Route) : RouteAction duration :=
  {| RouteAction_RetryPolicy := retryPolicy r;
     RouteAction_Timeout := timeout r;
     RouteAction_PrefixRewrite := dag.PrefixRewrite r;
     RouteAction_HashPolicy := hashPolicy r;
     UpgradeConfigs := if dag.Websocket r then ["websocket"] else [];
     RouteAction_ClusterSpecifier :=
       match dag.Clusters r with
       | [c] => RouteAction_Cluster (Clustername c)
       | cs => RouteAction_WeightedClusters (weightedClusters cs)
       end |}.

End Translator.

(** [envoy_api_v2_route.VirtualHost]; the routes are handed through
    as they are, whatever they hold. *)
Record VirtualHostConfig (R : Type) := {
  VirtualHost_Name : string;
  Domains : list string;
  Routes : list R
}.
Arguments VirtualHost_Name {R} _.
Arguments Domains {R} _.
Arguments Routes {R} _.

Section VirtualHosts.

(** [hashname] shortens a name to a length; it is not among the
    sources. *)
Variable hashname : Z -> string -> string.

(** [VirtualHost] creates a new route.VirtualHost: the domains are the
    hostname and, unless the hostname is [*], the hostname with any
    port. *)
Definition VirtualHost {R : Type} (hostname : string) (routes : list R)
    : VirtualHostConfig R :=
  {| VirtualHost_Name := hashname 60 hostname;
     Domains := if negb (String.eqb hostname "*")
                then [hostname; hostname +:+ ":*"]
                else [hostname];
     Routes := routes |}.

End VirtualHosts.

End envoy.

(** ** Package contour: the notification primitive and the event handler *)
Module contour.
Import k8s apis dag.

(** *** Cond *)

(** A channel [chan int] is known by its identity; what is sent on it is
    recorded in the order of the sends.  [Register] and [Notify] hold the
    mutex from entry to exit, so each call is one atomic step.  A send
    does not block: the channel has a capacity of at least 1 and its
    owner drains it, which is the contract [Register] documents. *)
Definition chan := nat.

Definition send := (chan * Z)%type.

(** Go's [int] is 64 bits wide on the platforms Contour runs on. *)
Definition int_wrap (z : Z) : Z := (z + 2 ^ 63) mod 2 ^ 64 - 2 ^ 63.

Record Cond := {
  waiters : gmap chan (list string);
  last : Z
}.

(** The zero value of [Cond], ready for use. *)
Definition Cond_zero : Cond := {| waiters := ∅; last := 0 |}.

(** [Register] registers [ch] to receive a value when [Notify] is
    called; if [lst] is less than the counter the caller has missed a
    notification and [ch] fires immediately. *)
Definition Register (c : Cond) (ch : chan) (lst : Z) (hints : list string)
    : Cond * list send :=
  if lst <? last c then
    (* notify this channel immediately *)
    (c, [(ch, last c)])
  else
    ({| waiters := <[ch := hints]> (waiters c); last := last c |}, []).

(** Whether a waiter with these hints is woken by a [Notify] whose hints
    are the set [m]: it registered no hints, or one of its hints is in
    [m]. *)
Definition woken (m : gset string) (hints : list string) : bool :=
  match hints with
  | [] => true
  | _ => existsb (fun h => bool_decide (h ∈ m)) hints
  end.

(** [Notify] notifies all registered waiters that an event has occurred:
    the counter goes up, and every waiter that is woken receives the new
    counter and is deleted from the waiters. *)
Definition Notify (c : Cond) (hints : list string) : Cond * list send :=
  let last' := int_wrap (last c + 1) in
  let m : gset string := list_to_set hints in
  let fired := filter (fun w => woken m w.2 = true) (map_to_list (waiters c)) in
  ({| waiters := filter (fun w => woken m w.2 = false) (waiters c); last := last' |},
   (fun w => (w.1, last')) <$> fired).

(** Calls on one [Cond], and their effect in sequence. *)
Inductive call :=
| CallRegister (ch : chan) (lst : Z) (hints : list string)
| CallNotify (hints : list string).

Definition step (c : Cond) (k : call) : Cond * list send :=
  match k with
  | CallRegister ch lst hints => Register c ch lst hints
  | CallNotify hints => Notify c hints
  end.

Fixpoint run (c : Cond) (ks : list call) : Cond * list send :=
  match ks with
  | [] => (c, [])
  | k :: ks' =>
    let '(c1, out1) := step c k in
    let '(c2, out2) := run c1 ks' in
    (c2, out1 ++ out2)
  end.

(** The values received on [ch], oldest first. *)
Definition observed (ch : chan) (out : list send) : list Z :=
  (filter (fun s => s.1 = ch) out).*2.

(** The number of [Notify] calls among [ks]. *)
Definition is_Notify (k : call) : bool :=
  match k with CallNotify _ => true | CallRegister _ _ _ => false end.

Definition notifications (ks : list call) : Z :=
  Z.of_nat (length (List.filter is_Notify ks)).


(** *** EventHandler.onUpdate *)

Definition mask_meta (m : ObjectMeta) : ObjectMeta :=
  {| Name := Name m; Namespace := Namespace m;
     Annotations := Annotations m; ResourceVersion := "" |}.

(** What [cmp.Equal] compares under the two options of [onUpdate]:
    [IgnoreFields(IngressRoute{}, "Status")] leaves the status of an
    IngressRoute out, and [IgnoreFields(ObjectMeta{}, "ResourceVersion")]
    leaves the resource version of any object metadata out. *)
Fixpoint masked (o : Object) : Object :=
  match o with
  | ObjSecret s =>
      ObjSecret {| secret_meta := mask_meta (secret_meta s);
                   secret_Type := secret_Type s; secret_Data := secret_Data s |}
  | ObjService s =>
      ObjService {| svc_meta := mask_meta (svc_meta s);
                    svc_Ports := svc_Ports s; svc_Status := svc_Status s |}
  | ObjIngress i =>
      ObjIngress {| ing_meta := mask_meta (ing_meta i);
                    ing_Spec := ing_Spec i; ing_Status := ing_Status i |}
  | ObjIngressRoute ir =>
      ObjIngressRoute {| ir_meta := mask_meta (ir_meta ir); ir_Spec := ir_Spec ir;
                         ir_Status := {| CurrentStatus := ""; Description := "" |} |}
  | ObjHTTPProxy p =>
      ObjHTTPProxy {| hp_meta := mask_meta (hp_meta p); hp_Spec := hp_Spec p;
                      hp_Status := hp_Status p |}
  | ObjIRDelegation d =>
      ObjIRDelegation {| del_meta := mask_meta (del_meta d);
                         Delegations := Delegations d |}
  | ObjHPDelegation d =>
      ObjHPDelegation {| del_meta := mask_meta (del_meta d);
                         Delegations := Delegations d |}
  | ObjDeletedFinalStateUnknown key obj => ObjDeletedFinalStateUnknown key (masked obj)
  | ObjOther kind m => ObjOther kind (mask_meta m)
  end.

Definition cmp_Equal (x y : Object) : bool := bool_decide (masked x = masked y).

(** The operations that arrive on the [update] channel. *)
Inductive op :=
| opAdd (obj : Object)
| opUpdate (oldObj newObj : Object)
| opDelete (obj : Object)
| opUnknown.

(** [onUpdate] processes the event received and returns true if the
    event changed the cache in a way that requires notifying the
    CacheHandler.  The cache is [e.Builder.Source]. *)
Definition onUpdate (source : KubernetesCache) (o : op) : bool * KubernetesCache :=
  match o with
  | opAdd obj => Insert source obj
  | opUpdate oldObj newObj =>
    if cmp_Equal oldObj newObj then
      (* skipping update, only status has changed *)
      (false, source)
    else
      let '(remove, source1) := Remove source oldObj in
      let '(insert, source2) := Insert source1 newObj in
      (remove || insert, source2)
  | opDelete obj => Remove source obj
  | opUnknown => (false, source)
  end.

End contour.

(** ** Concrete inputs *)
Module examples.
Import k8s apis.

(** [duration.Duration] of the wire: whole seconds and the nanoseconds
    left, both with the sign of the duration. *)
Record Duration := { Seconds : Z; Nanos : Z }.

(** A conversion from [time.Duration] (nanoseconds) in the shape of the
    wire message, to instantiate the translator's [protobuf.Duration]. *)
Definition wire_Duration (d : Z) : Duration :=
  {| Seconds := Z.quot d 1000000000; Nanos := Z.rem d 1000000000 |}.

(** A cluster name made of the namespace and the name of the upstream
    service, to instantiate [Clustername]. *)
Definition wire_Clustername (c : dag.Cluster) : string :=
  dag.Service_Namespace (dag.Upstream c) +:+ "/" +:+ dag.Service_Name (dag.Upstream c).

Definition meta (ns nm : string) : ObjectMeta :=
  {| Name := nm; Namespace := ns; Annotations := ∅; ResourceVersion := "1" |}.

Definition upstream (nm : string) : dag.Service :=
  {| dag.Service_Name := nm; dag.Service_Namespace := "default";
     dag.Service_Port := 80; dag.Protocol := "";
     dag.MaxConnections := 0; dag.MaxPendingRequests := 0;
     dag.MaxRequests := 0; dag.MaxRetries := 0; dag.ExternalName := "" |}.

Definition cluster (nm : string) (w : Z) : dag.Cluster :=
  {| dag.Upstream := upstream nm; dag.Weight := w;
     dag.Cluster_UpstreamValidation := None;
     dag.LoadBalancerStrategy := "";
     dag.Cluster_HealthCheckPolicy := None |}.

Definition route (cs : list dag.Cluster) (t : option dag.TimeoutPolicy)
    (rp : option dag.RetryPolicy) : dag.Route :=
  {| dag.Clusters := cs; dag.HTTPSUpgrade := false; dag.Websocket := false;
     dag.Route_TimeoutPolicy := t; dag.Route_RetryPolicy := rp;
     dag.PrefixRewrite := "" |}.

Definition empty_cache : dag.KubernetesCache :=
  {| dag.RootNamespaces := []; dag.IngressClass := "";
     dag.ingresses := ∅; dag.ingressroutes := ∅; dag.httpproxies := ∅;
     dag.secrets := ∅; dag.irdelegations := ∅;
     dag.httpproxydelegations := ∅; dag.services := ∅ |}.

End examples.

(** * Vocabulary of the properties *)

(** Calls that register other channels than [ch]. *)
Definition registers_other (ch : contour.chan) (k : contour.call) : Prop :=
  match k with
  | contour.CallRegister ch' _ _ => ch' <> ch
  | contour.CallNotify _ => False
  end.

(** Whether a string contains the separator [/]. *)
Fixpoint has_slash (s : string) : bool :=
  match s with
  | EmptyString => false
  | String c s' => Ascii.eqb c "/"%char || has_slash s'
  end.

(** The names the secret and the TLS-bearing objects carry are as the
    API server admits them: the name of the secret and the namespaces of
    the stored Ingresses, IngressRoutes and HTTPProxies contain no [/]. *)
Definition well_named (kc : dag.KubernetesCache) (secret : k8s.Secret) : Prop :=
  has_slash (k8s.Name (k8s.secret_meta secret)) = false
  /\ (forall m i, dag.ingresses kc !! m = Some i ->
        has_slash (k8s.Namespace (k8s.ing_meta i)) = false)
  /\ (forall m ir, dag.ingressroutes kc !! m = Some ir ->
        has_slash (k8s.Namespace (apis.ir_meta ir)) = false)
  /\ (forall m p, dag.httpproxies kc !! m = Some p ->
        has_slash (k8s.Namespace (apis.hp_meta p)) = false).

(** Some stored TLSCertificateDelegation (of either API group) delegates
    the secret name [secretname] to the namespace [ns], by naming [ns]
    or the wildcard [*] among its target namespaces. *)
Definition permits (kc : dag.KubernetesCache) (ns secretname : string) : Prop :=
  exists m d cd,
    (dag.irdelegations kc !! m = Some d \/ dag.httpproxydelegations kc !! m = Some d)
    /\ cd ∈ apis.Delegations d
    /\ apis.SecretName cd = secretname
    /\ (ns ∈ apis.TargetNamespaces cd \/ "*" ∈ apis.TargetNamespaces cd).

(** Some TLS spec of a stored Ingress, IngressRoute root or HTTPProxy
    root stands in the relation [refers] to the secret; [refers] is
    given the namespace of the object and the secret name of its TLS
    spec. *)
Definition some_tls (kc : dag.KubernetesCache) (refers : string -> string -> Prop)
    : Prop :=
  (exists m i tls,
      dag.ingresses kc !! m = Some i
      /\ tls ∈ k8s.TLS (k8s.ing_Spec i)
      /\ refers (k8s.Namespace (k8s.ing_meta i)) (k8s.tls_SecretName tls))
  \/ (exists m ir vh tls,
      dag.ingressroutes kc !! m = Some ir
      /\ apis.spec_VirtualHost (apis.ir_Spec ir) = Some vh
      /\ apis.vh_TLS vh = Some tls
      /\ refers (k8s.Namespace (apis.ir_meta ir)) (apis.tls_SecretName tls))
  \/ (exists m p vh tls,
      dag.httpproxies kc !! m = Some p
      /\ apis.spec_VirtualHost (apis.hp_Spec p) = Some vh
      /\ apis.vh_TLS vh = Some tls
      /\ refers (k8s.Namespace (apis.hp_meta p)) (apis.tls_SecretName tls)).

(** What the search of [secretTriggersRebuild] accepts of a TLS spec
    with secret name [tlsname] in an object of namespace [rootns]: the
    bare name of the secret when the object is of the secret's
    namespace, or [namespace/name] when a delegation permits the
    namespace of the object. *)
Definition tls_matched (kc : dag.KubernetesCache) (secret : k8s.Secret)
    (rootns tlsname : string) : Prop :=
  let sns := k8s.Namespace (k8s.secret_meta secret) in
  let snm := k8s.Name (k8s.secret_meta secret) in
  (rootns = sns /\ tlsname = snm)
  \/ (tlsname = sns +:+ "/" +:+ snm /\ permits kc rootns snm).

Definition secret_matched (kc : dag.KubernetesCache) (secret : k8s.Secret) : Prop :=
  some_tls kc (tls_matched kc secret).

(** A secret name [tlsname] in an object of namespace [rootns] names
    [secret]: a bare name is a name in the namespace of the object, and
    [namespace/name] names the secret of that name in that namespace. *)
Definition tls_names (secret : k8s.Secret) (rootns tlsname : string) : Prop :=
  let sns := k8s.Namespace (k8s.secret_meta secret) in
  let snm := k8s.Name (k8s.secret_meta secret) in
  (rootns = sns /\ tlsname = snm) \/ tlsname = sns +:+ "/" +:+ snm.

(** A TLS spec with secret name [tlsname], in an object of namespace
    [rootns], refers to [secret], as the specification has it: it names
    the secret, and the secret lives in the namespace of the object or a
    delegation permits that namespace. *)
Definition tls_refers (kc : dag.KubernetesCache) (secret : k8s.Secret)
    (rootns tlsname : string) : Prop :=
  tls_names secret rootns tlsname
  /\ (rootns = k8s.Namespace (k8s.secret_meta secret)
      \/ permits kc rootns (k8s.Name (k8s.secret_meta secret))).

(** Some TLS spec of a stored Ingress, IngressRoute root or HTTPProxy
    root refers to [secret]. *)
Definition secret_referenced (kc : dag.KubernetesCache) (secret : k8s.Secret) : Prop :=
  some_tls kc (tls_refers kc secret).

(** The secret carries a [ca.crt] entry. *)
Definition has_ca (secret : k8s.Secret) : Prop :=
  is_Some (k8s.secret_Data secret !! "ca.crt").

(** The secrets that [Insert] stores: not a service account token, and
    of type TLS or with a [ca.crt] entry. *)
Definition secret_accepted (secret : k8s.Secret) : Prop :=
  k8s.secret_Type secret <> k8s.SecretTypeServiceAccountToken
  /\ (k8s.secret_Type secret = k8s.SecretTypeTLS \/ has_ca secret).

(** An Ingress names the service in its default backend or in the
    backend of a path of a rule. *)
Definition ingress_refers (svcname : string) (i : k8s.Ingress) : Prop :=
  (exists b, k8s.Backend (k8s.ing_Spec i) = Some b /\ k8s.ServiceName b = svcname)
  \/ (exists rule paths path,
        rule ∈ k8s.Rules (k8s.ing_Spec i)
        /\ k8s.rule_HTTP rule = Some paths
        /\ path ∈ paths
        /\ k8s.ServiceName (k8s.path_Backend path) = svcname).

(** The spec of an IngressRoute or HTTPProxy names the service in a
    route or in its TCP proxy. *)
Definition spec_refers (svcname : string) (s : apis.Spec) : Prop :=
  (exists route svc,
      route ∈ apis.spec_Routes s /\ svc ∈ apis.Services route
      /\ apis.svc_Name svc = svcname)
  \/ (exists tcpproxy svc,
      apis.spec_TCPProxy s = Some tcpproxy /\ svc ∈ apis.tcp_Services tcpproxy
      /\ apis.svc_Name svc = svcname).

(** Some stored Ingress, IngressRoute or HTTPProxy of the service's
    namespace names the service. *)
Definition service_referenced (kc : dag.KubernetesCache) (service : k8s.Service) : Prop :=
  let ns := k8s.Namespace (k8s.svc_meta service) in
  let nm := k8s.Name (k8s.svc_meta service) in
  (exists m i, dag.ingresses kc !! m = Some i
      /\ k8s.Namespace (k8s.ing_meta i) = ns /\ ingress_refers nm i)
  \/ (exists m ir, dag.ingressroutes kc !! m = Some ir
      /\ k8s.Namespace (apis.ir_meta ir) = ns /\ spec_refers nm (apis.ir_Spec ir))
  \/ (exists m p, dag.httpproxies kc !! m = Some p
      /\ k8s.Namespace (apis.hp_meta p) = ns /\ spec_refers nm (apis.hp_Spec p)).

(** Concrete stores and objects. *)
Module store_examples.
Import k8s apis.

(** A [ca.crt] bundle of type Opaque in the namespace [default]. *)
Definition ca_secret : k8s.Secret :=
  {| secret_meta := examples.meta "default" "ca";
     secret_Type := "Opaque";
     secret_Data := {[ "ca.crt" := "PEM" ]} |}.

(** A TLS secret [certs/wild]. *)
Definition wild_secret : k8s.Secret :=
  {| secret_meta := examples.meta "certs" "wild";
     secret_Type := SecretTypeTLS;
     secret_Data := {[ "tls.crt" := "PEM"; "tls.key" := "PEM" ]} |}.

(** An HTTPProxy root in the namespace [roots] whose TLS spec names
    [certs/wild]. *)
Definition root_proxy : HTTPProxy :=
  {| hp_meta := examples.meta "roots" "www";
     hp_Spec :=
       {| spec_VirtualHost :=
            Some {| Fqdn := "www.example.com";
                    vh_TLS := Some {| apis.tls_SecretName := "certs/wild";
                                      tls_MinimumProtocolVersion := "" |} |};
          spec_Routes :=
            [ {| Match := "/";
                 Services := [ {| svc_Name := "kuard"; svc_Port := 80; svc_Weight := 0 |} ];
                 PermitInsecure := false |} ];
          spec_TCPProxy := None |};
     hp_Status := {| CurrentStatus := ""; Description := "" |} |}.

(** A delegation of the secret [wild] to every namespace. *)
Definition wild_delegation : TLSCertificateDelegation :=
  {| del_meta := examples.meta "certs" "wild";
     Delegations := [ {| SecretName := "wild"; TargetNamespaces := ["*"] |} ] |}.

(** The store after the delegation and the root have been inserted. *)
Definition delegating_cache : dag.KubernetesCache :=
  (dag.Insert
     (dag.Insert examples.empty_cache (dag.ObjHPDelegation wild_delegation)).2
     (dag.ObjHTTPProxy root_proxy)).2.

(** The service [roots/kuard], which [root_proxy] routes to, and the
    service [roots/other], which nothing names. *)
Definition kuard_service : k8s.Service :=
  {| svc_meta := examples.meta "roots" "kuard"; svc_Ports := [80]; svc_Status := [] |}.

Definition other_service : k8s.Service :=
  {| svc_meta := examples.meta "roots" "other"; svc_Ports := [80]; svc_Status := [] |}.

(** A TLS secret [default/secret], and an HTTPProxy root [default/www]
    of the same namespace whose TLS spec names the secret with its
    namespace, [default/secret]. *)
Definition own_secret : k8s.Secret :=
  {| secret_meta := examples.meta "default" "secret";
     secret_Type := SecretTypeTLS;
     secret_Data := {[ "tls.crt" := "PEM"; "tls.key" := "PEM" ]} |}.

Definition own_proxy : HTTPProxy :=
  {| hp_meta := examples.meta "default" "www";
     hp_Spec :=
       {| spec_VirtualHost :=
            Some {| Fqdn := "www.example.com";
                    vh_TLS := Some {| apis.tls_SecretName := "default/secret";
                                      tls_MinimumProtocolVersion := "" |} |};
          spec_Routes :=
            [ {| Match := "/";
                 Services := [ {| svc_Name := "kuard"; svc_Port := 80; svc_Weight := 0 |} ];
                 PermitInsecure := false |} ];
          spec_TCPProxy := None |};
     hp_Status := {| CurrentStatus := ""; Description := "" |} |}.

(** The store that holds the root [default/www] and nothing else. *)
Definition own_cache : dag.KubernetesCache :=
  (dag.Insert examples.empty_cache (dag.ObjHTTPProxy own_proxy)).2.

End store_examples.


(** 1 for a [Notify], 0 for a [Register]. *)
Definition notifies (k : contour.call) : Z := if contour.is_Notify k then 1 else 0.

(** A stream that owns channel 1 and starts from version 0, another
    waiter on channel 2, and three notifications, the second of which
    does not concern the stream. *)
Definition stream_calls : list contour.call :=
  [ contour.CallRegister 1%nat 0 [];
    contour.CallNotify [];
    contour.CallRegister 1%nat 1 ["x"];
    contour.CallNotify ["y"];
    contour.CallRegister 2%nat 0 [];
    contour.CallNotify ["x"] ].

(** The cluster weight that carries the declared weight of a cluster. *)
Definition declared (Clustername : dag.Cluster -> string) (c : dag.Cluster)
    : envoy.ClusterWeight :=
  {| envoy.Name := Clustername c;
     envoy.Weight := envoy.protobuf_UInt32 (dag.Weight c) |}.

(** The sum of the declared weights, as a number. *)
Definition sum_weights (cs : list dag.Cluster) : Z :=
  foldr (fun c acc => dag.Weight c + acc) 0 cs.

(** Two clusters whose weights, 2^31 each, add up to 2^32. *)
Definition heavy_clusters : list dag.Cluster :=
  [ examples.cluster "a" 2147483648; examples.cluster "b" 2147483648 ].

(** The weight of the cluster is a [uint32]. *)
Definition is_uint32 (c : dag.Cluster) : Prop := 0 <= dag.Weight c < 2 ^ 32.

(** The object without the resource version of its metadata. *)
Fixpoint without_version (o : dag.Object) : dag.Object :=
  match o with
  | dag.ObjSecret s =>
      dag.ObjSecret {| k8s.secret_meta := contour.mask_meta (k8s.secret_meta s);
                       k8s.secret_Type := k8s.secret_Type s;
                       k8s.secret_Data := k8s.secret_Data s |}
  | dag.ObjService s =>
      dag.ObjService {| k8s.svc_meta := contour.mask_meta (k8s.svc_meta s);
                        k8s.svc_Ports := k8s.svc_Ports s;
                        k8s.svc_Status := k8s.svc_Status s |}
  | dag.ObjIngress i =>
      dag.ObjIngress {| k8s.ing_meta := contour.mask_meta (k8s.ing_meta i);
                        k8s.ing_Spec := k8s.ing_Spec i;
                        k8s.ing_Status := k8s.ing_Status i |}
  | dag.ObjIngressRoute ir =>
      dag.ObjIngressRoute {| apis.ir_meta := contour.mask_meta (apis.ir_meta ir);
                             apis.ir_Spec := apis.ir_Spec ir;
                             apis.ir_Status := apis.ir_Status ir |}
  | dag.ObjHTTPProxy p =>
      dag.ObjHTTPProxy {| apis.hp_meta := contour.mask_meta (apis.hp_meta p);
                          apis.hp_Spec := apis.hp_Spec p;
                          apis.hp_Status := apis.hp_Status p |}
  | dag.ObjIRDelegation d =>
      dag.ObjIRDelegation {| apis.del_meta := contour.mask_meta (apis.del_meta d);
                             apis.Delegations := apis.Delegations d |}
  | dag.ObjHPDelegation d =>
      dag.ObjHPDelegation {| apis.del_meta := contour.mask_meta (apis.del_meta d);
                             apis.Delegations := apis.Delegations d |}
  | dag.ObjDeletedFinalStateUnknown key obj =>
      dag.ObjDeletedFinalStateUnknown key (without_version obj)
  | dag.ObjOther kind m => dag.ObjOther kind (contour.mask_meta m)
  end.

Definition no_status : apis.Status :=
  {| apis.CurrentStatus := ""; apis.Description := "" |}.

(** The object without its status subresource; Services, Ingresses,
    IngressRoutes and HTTPProxies carry one. *)
Fixpoint without_status (o : dag.Object) : dag.Object :=
  match o with
  | dag.ObjService s =>
      dag.ObjService {| k8s.svc_meta := k8s.svc_meta s;
                        k8s.svc_Ports := k8s.svc_Ports s;
                        k8s.svc_Status := [] |}
  | dag.ObjIngress i =>
      dag.ObjIngress {| k8s.ing_meta := k8s.ing_meta i;
                        k8s.ing_Spec := k8s.ing_Spec i;
                        k8s.ing_Status := [] |}
  | dag.ObjIngressRoute ir =>
      dag.ObjIngressRoute {| apis.ir_meta := apis.ir_meta ir;
                             apis.ir_Spec := apis.ir_Spec ir;
                             apis.ir_Status := no_status |}
  | dag.ObjHTTPProxy p =>
      dag.ObjHTTPProxy {| apis.hp_meta := apis.hp_meta p;
                          apis.hp_Spec := apis.hp_Spec p;
                          apis.hp_Status := no_status |}
  | dag.ObjDeletedFinalStateUnknown key obj =>
      dag.ObjDeletedFinalStateUnknown key (without_status obj)
  | _ => o
  end.

(** The two objects differ at most in their status subresource and in
    their resource version. *)
Definition same_but_status_and_version (x y : dag.Object) : Prop :=
  without_status (without_version x) = without_status (without_version y).

(** Objects of an update event. *)
Module update_examples.
Import k8s apis.

(** The Ingress [default/kuard] with a default backend, at a resource
    version and with the load balancer addresses of its status. *)
Definition kuard_ingress (version : string) (status : list string) : k8s.Ingress :=
  {| ing_meta := {| Name := "kuard"; Namespace := "default";
                    Annotations := ∅; ResourceVersion := version |};
     ing_Spec := {| Backend := Some {| ServiceName := "kuard"; ServicePort := "80" |};
                    k8s.TLS := []; Rules := [] |};
     ing_Status := status |}.

(** The IngressRoute [default/simple] at a resource version and with a
    status. *)
Definition simple_ingressroute (version : string) (status : apis.Status) : IngressRoute :=
  {| ir_meta := {| Name := "simple"; Namespace := "default";
                   Annotations := ∅; ResourceVersion := version |};
     ir_Spec :=
       {| spec_VirtualHost := Some {| Fqdn := "test2.test.com"; vh_TLS := None |};
          spec_Routes :=
            [ {| Match := "/";
                 Services := [ {| svc_Name := "backend"; svc_Port := 80; svc_Weight := 0 |} ];
                 PermitInsecure := false |} ];
          spec_TCPProxy := None |};
     ir_Status := status |}.

(** The HTTPProxy [default/simple], likewise. *)
Definition simple_httpproxy (version : string) (status : apis.Status) : HTTPProxy :=
  {| hp_meta := {| Name := "simple"; Namespace := "default";
                   Annotations := ∅; ResourceVersion := version |};
     hp_Spec := ir_Spec (simple_ingressroute version status);
     hp_Status := status |}.

Definition valid : apis.Status :=
  {| CurrentStatus := "valid"; Description := "valid IngressRoute" |}.

End update_examples.

(** The object (under its tombstones) has an entry of its kind under its
    namespace and name. *)
Fixpoint present (kc : dag.KubernetesCache) (obj : dag.Object) : Prop :=
  match obj with
  | dag.ObjSecret s => is_Some (dag.secrets kc !! dag.toMeta (k8s.secret_meta s))
  | dag.ObjService s => is_Some (dag.services kc !! dag.toMeta (k8s.svc_meta s))
  | dag.ObjIngress i => is_Some (dag.ingresses kc !! dag.toMeta (k8s.ing_meta i))
  | dag.ObjIngressRoute ir =>
      is_Some (dag.ingressroutes kc !! dag.toMeta (apis.ir_meta ir))
  | dag.ObjHTTPProxy p => is_Some (dag.httpproxies kc !! dag.toMeta (apis.hp_meta p))
  | dag.ObjIRDelegation d =>
      is_Some (dag.irdelegations kc !! dag.toMeta (apis.del_meta d))
  | dag.ObjHPDelegation d =>
      is_Some (dag.httpproxydelegations kc !! dag.toMeta (apis.del_meta d))
  | dag.ObjDeletedFinalStateUnknown _ o => present kc o
  | dag.ObjOther _ _ => False
  end.

(** The store holds this very object under its namespace and name; a
    tombstone or a value of another kind is never held. *)
Definition stored (kc : dag.KubernetesCache) (obj : dag.Object) : Prop :=
  match obj with
  | dag.ObjSecret s => dag.secrets kc !! dag.toMeta (k8s.secret_meta s) = Some s
  | dag.ObjService s => dag.services kc !! dag.toMeta (k8s.svc_meta s) = Some s
  | dag.ObjIngress i => dag.ingresses kc !! dag.toMeta (k8s.ing_meta i) = Some i
  | dag.ObjIngressRoute ir =>
      dag.ingressroutes kc !! dag.toMeta (apis.ir_meta ir) = Some ir
  | dag.ObjHTTPProxy p => dag.httpproxies kc !! dag.toMeta (apis.hp_meta p) = Some p
  | dag.ObjIRDelegation d =>
      dag.irdelegations kc !! dag.toMeta (apis.del_meta d) = Some d
  | dag.ObjHPDelegation d =>
      dag.httpproxydelegations kc !! dag.toMeta (apis.del_meta d) = Some d
  | dag.ObjDeletedFinalStateUnknown _ _ => False
  | dag.ObjOther _ _ => False
  end.

(** The kinds the store files objects under. *)
Inductive kind :=
| KSecret | KService | KIngress | KIngressRoute | KHTTPProxy
| KIRDelegation | KHPDelegation.

(** The kind, namespace and name that [Remove] acts on, looking through
    tombstones; nothing for a value the store does not know. *)
Fixpoint store_key (obj : dag.Object) : option (kind * dag.Meta) :=
  match obj with
  | dag.ObjSecret s => Some (KSecret, dag.toMeta (k8s.secret_meta s))
  | dag.ObjService s => Some (KService, dag.toMeta (k8s.svc_meta s))
  | dag.ObjIngress i => Some (KIngress, dag.toMeta (k8s.ing_meta i))
  | dag.ObjIngressRoute ir => Some (KIngressRoute, dag.toMeta (apis.ir_meta ir))
  | dag.ObjHTTPProxy p => Some (KHTTPProxy, dag.toMeta (apis.hp_meta p))
  | dag.ObjIRDelegation d => Some (KIRDelegation, dag.toMeta (apis.del_meta d))
  | dag.ObjHPDelegation d => Some (KHPDelegation, dag.toMeta (apis.del_meta d))
  | dag.ObjDeletedFinalStateUnknown _ o => store_key o
  | dag.ObjOther _ _ => None
  end.

(** Every entry of the store is filed under the namespace and name of
    the object it holds. *)
Definition keyed (kc : dag.KubernetesCache) : Prop :=
  (forall m o, dag.ingresses kc !! m = Some o -> m = dag.toMeta (k8s.ing_meta o))
  /\ (forall m o, dag.ingressroutes kc !! m = Some o -> m = dag.toMeta (apis.ir_meta o))
  /\ (forall m o, dag.httpproxies kc !! m = Some o -> m = dag.toMeta (apis.hp_meta o))
  /\ (forall m o, dag.secrets kc !! m = Some o -> m = dag.toMeta (k8s.secret_meta o))
  /\ (forall m o, dag.irdelegations kc !! m = Some o -> m = dag.toMeta (apis.del_meta o))
  /\ (forall m o, dag.httpproxydelegations kc !! m = Some o ->
        m = dag.toMeta (apis.del_meta o))
  /\ (forall m o, dag.services kc !! m = Some o -> m = dag.toMeta (k8s.svc_meta o)).

(** The metadata carries no ingress class or the class of this cache. *)
Definition class_admitted (kc : dag.KubernetesCache) (m : k8s.ObjectMeta) : Prop :=
  dag.ingressClass m = "" \/ dag.ingressClass m = dag.kc_ingressClass kc.

(** What the filters of [Insert] keep out stays out: every stored secret
    is one that [Insert] accepts, and every stored Ingress, IngressRoute
    and HTTPProxy is of an admitted class. *)
Definition filtered (kc : dag.KubernetesCache) : Prop :=
  (forall m s, dag.secrets kc !! m = Some s -> secret_accepted s)
  /\ (forall m o, dag.ingresses kc !! m = Some o -> class_admitted kc (k8s.ing_meta o))
  /\ (forall m o, dag.ingressroutes kc !! m = Some o ->
        class_admitted kc (apis.ir_meta o))
  /\ (forall m o, dag.httpproxies kc !! m = Some o -> class_admitted kc (apis.hp_meta o)).

(** The store after the event handler has processed the operations in
    order. *)
Definition handle (source : dag.KubernetesCache) (ops : list contour.op)
    : dag.KubernetesCache :=
  foldl (fun kc o => (contour.onUpdate kc o).2) source ops.

(** Deleting the entry of a kind under a namespace and name, and
    whether there was one. *)
Definition remove_key (kc : dag.KubernetesCache) (k : option (kind * dag.Meta))
    : bool * dag.KubernetesCache :=
  match k with
  | Some (KSecret, m) =>
      (bool_decide (is_Some (dag.secrets kc !! m)), dag.with_secrets (delete m) kc)
  | Some (KService, m) =>
      (bool_decide (is_Some (dag.services kc !! m)), dag.with_services (delete m) kc)
  | Some (KIngress, m) =>
      (bool_decide (is_Some (dag.ingresses kc !! m)), dag.with_ingresses (delete m) kc)
  | Some (KIngressRoute, m) =>
      (bool_decide (is_Some (dag.ingressroutes kc !! m)),
       dag.with_ingressroutes (delete m) kc)
  | Some (KHTTPProxy, m) =>
      (bool_decide (is_Some (dag.httpproxies kc !! m)),
       dag.with_httpproxies (delete m) kc)
  | Some (KIRDelegation, m) =>
      (bool_decide (is_Some (dag.irdelegations kc !! m)),
       dag.with_irdelegations (delete m) kc)
  | Some (KHPDelegation, m) =>
      (bool_decide (is_Some (dag.httpproxydelegations kc !! m)),
       dag.with_httpproxydelegations (delete m) kc)
  | None => (false, kc)
  end.

(** The objects that [Insert] files in the store: Services and
    delegations always, secrets by their type and data, Ingresses,
    IngressRoutes and HTTPProxies by their class; never a tombstone or a
    value of another kind. *)
Definition accepted (kc : dag.KubernetesCache) (obj : dag.Object) : Prop :=
  match obj with
  | dag.ObjSecret s => secret_accepted s
  | dag.ObjService _ => True
  | dag.ObjIngress i => class_admitted kc (k8s.ing_meta i)
  | dag.ObjIngressRoute ir => class_admitted kc (apis.ir_meta ir)
  | dag.ObjHTTPProxy p => class_admitted kc (apis.hp_meta p)
  | dag.ObjIRDelegation _ => True
  | dag.ObjHPDelegation _ => True
  | dag.ObjDeletedFinalStateUnknown _ _ => False
  | dag.ObjOther _ _ => False
  end.

(** [b] does not sort before [a]. *)
Definition ordered (a b : envoy.ClusterWeight) : Prop := envoy.Less b a = false.

(** The sum of the emitted weights, as a number. *)
Definition sum_emitted (cws : list envoy.ClusterWeight) : Z :=
  foldr (fun cw acc => envoy.Value (envoy.Weight cw) + acc) 0 cws.

(** The cluster with another weight. *)
Definition with_weight (w : Z) (c : dag.Cluster) : dag.Cluster :=
  {| dag.Upstream := dag.Upstream c; dag.Weight := w;
     dag.Cluster_UpstreamValidation := dag.Cluster_UpstreamValidation c;
     dag.LoadBalancerStrategy := dag.LoadBalancerStrategy c;
     dag.Cluster_HealthCheckPolicy := dag.Cluster_HealthCheckPolicy c |}.

(** The route with other clusters. *)
Definition with_clusters (cs : list dag.Cluster) (r : dag.Route) : dag.Route :=
  {| dag.Clusters := cs; dag.HTTPSUpgrade := dag.HTTPSUpgrade r;
     dag.Websocket := dag.Websocket r;
     dag.Route_TimeoutPolicy := dag.Route_TimeoutPolicy r;
     dag.Route_RetryPolicy := dag.Route_RetryPolicy r;
     dag.PrefixRewrite := dag.PrefixRewrite r |}.

(** The key under which [addRoute] files a route vertex. *)
Definition route_key (route : dag.Vertex) : option string :=
  match route with
  | dag.VPrefixRoute r => Some (dag.Prefix r)
  | dag.VRegexRoute r => Some (dag.Regex r)
  | _ => None
  end.

(** Adding one route and then another, if neither call panics. *)
Definition addRoutes2 (v : dag.VirtualHost) (r1 r2 : dag.Vertex)
    : dag.outcome dag.VirtualHost :=
  match dag.addRoute v r1 with
  | dag.Returns v1 => dag.addRoute v1 r2
  | dag.Panics msg => dag.Panics msg
  end.

(** The cookie hash policy of session affinity. *)
Definition affinity_cookie {duration : Type} (protobuf_Duration : Z -> duration)
    : envoy.HashPolicy_Cookie duration :=
  {| envoy.Cookie_Name := "X-Contour-Session-Affinity";
     envoy.Cookie_Ttl := protobuf_Duration 0;
     envoy.Cookie_Path := "/" |}.

(** An Ingress with the given annotations. *)
Definition annotated_ingress (a : gmap string string) : k8s.Ingress :=
  {| k8s.ing_meta := {| k8s.Name := "kuard"; k8s.Namespace := "default";
                        k8s.Annotations := a; k8s.ResourceVersion := "1" |};
     k8s.ing_Spec := {| k8s.Backend := None; k8s.TLS := []; k8s.Rules := [] |};
     k8s.ing_Status := [] |}.

(** Inputs of the event handler. *)
Module handler_examples.

(** The store that holds the Ingress [default/kuard]. *)
Definition kuard_cache : dag.KubernetesCache :=
  (dag.Insert examples.empty_cache
     (dag.ObjIngress (update_examples.kuard_ingress "1" []))).2.

(** A later copy of that Ingress inside a tombstone. *)
Definition kuard_tombstone : dag.Object :=
  dag.ObjDeletedFinalStateUnknown "default/kuard"
    (dag.ObjIngress (update_examples.kuard_ingress "7" ["10.0.0.1"])).

(** A service account token that carries a [ca.crt] entry. *)
Definition token_secret : k8s.Secret :=
  {| k8s.secret_meta := examples.meta "default" "default-token";
     k8s.secret_Type := k8s.SecretTypeServiceAccountToken;
     k8s.secret_Data := {[ "ca.crt" := "PEM"; "token" := "JWT" ]} |}.

(** The Ingress [default/kuard] of the class [nginx]. *)
Definition nginx_ingress : k8s.Ingress :=
  annotated_ingress {[ "kubernetes.io/ingress.class" := "nginx" ]}.

(** Events: objects arrive, one of them is updated, one is deleted. *)
Definition events : list contour.op :=
  [ contour.opAdd (dag.ObjIngress (update_examples.kuard_ingress "1" []));
    contour.opAdd (dag.ObjSecret token_secret);
    contour.opAdd (dag.ObjSecret store_examples.ca_secret);
    contour.opAdd (dag.ObjHTTPProxy store_examples.root_proxy);
    contour.opUpdate (dag.ObjIngress (update_examples.kuard_ingress "1" []))
                     (dag.ObjIngress nginx_ingress);
    contour.opDelete (dag.ObjSecret store_examples.ca_secret) ].

(** A waiter on channel 1 with the hint [x], one on channel 2 without
    hints, at counter 4. *)
Definition two_waiters : contour.Cond :=
  {| contour.waiters := {[ 1%nat := ["x"]; 2%nat := [] ]}; contour.last := 4 |}.

End handler_examples.

(** * Properties *)

(** ** Route encoding: timeouts *)
Section TimeoutEncoding.
Context {duration : Type}.
Variable protobuf_Duration : Z -> duration.
Variable Clustername : dag.Cluster -> string.

(** C1: for a route that carries a timeout policy, the timeout field of
    the translated route action is what [timeout] computes: it is absent
    for the policy value 0 (the data plane's default applies), it is the
    conversion of the zero duration for the policy value -1 (which the
    data plane reads as "infinite"), and it is the conversion of the
    policy value itself for any other value. *)
Theorem timeout_encoding (r : dag.Route) (p : dag.TimeoutPolicy) :
  dag.Route_TimeoutPolicy r = Some p ->
  envoy.RouteAction_Timeout (envoy.RouteRoute protobuf_Duration Clustername r)
    = envoy.timeout protobuf_Duration r
  /\ (dag.Timeout p = 0 -> envoy.timeout protobuf_Duration r = None)
  /\ (dag.Timeout p = -1 ->
      envoy.timeout protobuf_Duration r = Some (protobuf_Duration 0))
  /\ (dag.Timeout p <> 0 -> dag.Timeout p <> -1 ->
      envoy.timeout protobuf_Duration r = Some (protobuf_Duration (dag.Timeout p))).
Proof.
  intros Hp. split; [reflexivity|].
  unfold envoy.timeout. rewrite Hp.
  split; [|split].
  - intros ->. reflexivity.
  - intros ->. reflexivity.
  - intros H0 H1.
    destruct (Z.eqb_spec (dag.Timeout p) 0) as [E|_]; [contradiction|].
    destruct (Z.eqb_spec (dag.Timeout p) (-1)) as [E|_]; [contradiction|].
    reflexivity.
Qed.

End TimeoutEncoding.

(** The three encodings at the policy values 0, -1 and ten minutes, with
    the wire message of [examples]. *)
Lemma timeout_encoding_witness :
  envoy.timeout examples.wire_Duration
      (examples.route [] (Some {| dag.Timeout := 0 |}) None) = None
  /\ envoy.timeout examples.wire_Duration
      (examples.route [] (Some {| dag.Timeout := -1 |}) None)
     = Some {| examples.Seconds := 0; examples.Nanos := 0 |}
  /\ envoy.timeout examples.wire_Duration
      (examples.route [] (Some {| dag.Timeout := 600000000000 |}) None)
     = Some {| examples.Seconds := 600; examples.Nanos := 0 |}.
Proof.
  split; [|split].
  - apply (timeout_encoding examples.wire_Duration examples.wire_Clustername
             (examples.route [] (Some {| dag.Timeout := 0 |}) None)
             {| dag.Timeout := 0 |} eq_refl). reflexivity.
  - apply (timeout_encoding examples.wire_Duration examples.wire_Clustername
             (examples.route [] (Some {| dag.Timeout := -1 |}) None)
             {| dag.Timeout := -1 |} eq_refl). reflexivity.
  - apply (timeout_encoding examples.wire_Duration examples.wire_Clustername
             (examples.route [] (Some {| dag.Timeout := 600000000000 |}) None)
             {| dag.Timeout := 600000000000 |} eq_refl); discriminate.
Defined.

(** ** Route encoding: retries *)
Section RetryEncoding.
Context {duration : Type}.
Variable protobuf_Duration : Z -> duration.
Variable Clustername : dag.Cluster -> string.

(** C3 (amended): the retry policy of the translated route action is
    what [retryPolicy] computes.  It is absent when the route has no
    retry policy or an empty [RetryOn].  Otherwise a policy with the
    same [RetryOn] is emitted; its number-of-retries field carries the
    source's number when that is positive and is left out when the
    source leaves it unspecified (0): the translator never writes a
    default; its per-try timeout is the source's, and is left out when
    the source has none (0, or a negative duration). *)
Theorem retry_policy_encoding (r : dag.Route) :
  envoy.RouteAction_RetryPolicy (envoy.RouteRoute protobuf_Duration Clustername r)
    = envoy.retryPolicy protobuf_Duration r
  /\ (dag.Route_RetryPolicy r = None -> envoy.retryPolicy protobuf_Duration r = None)
  /\ (forall p, dag.Route_RetryPolicy r = Some p -> dag.RetryOn p = "" ->
        envoy.retryPolicy protobuf_Duration r = None)
  /\ (forall p, dag.Route_RetryPolicy r = Some p -> dag.RetryOn p <> "" ->
        exists rp, envoy.retryPolicy protobuf_Duration r = Some rp
          /\ envoy.RetryOn rp = dag.RetryOn p
          /\ (dag.NumRetries p <= 0 -> envoy.NumRetries rp = None)
          /\ (0 < dag.NumRetries p ->
                envoy.NumRetries rp = Some (envoy.protobuf_UInt32 (dag.NumRetries p)))
          /\ (dag.PerTryTimeout p <= 0 -> envoy.PerTryTimeout rp = None)
          /\ (0 < dag.PerTryTimeout p ->
                envoy.PerTryTimeout rp
                  = Some (protobuf_Duration (dag.PerTryTimeout p)))).
Proof.
  split; [reflexivity|].
  unfold envoy.retryPolicy.
  split; [|split].
  - intros ->. reflexivity.
  - intros p -> ->. reflexivity.
  - intros p -> Hon.
    destruct (String.eqb_spec (dag.RetryOn p) "") as [E|_]; [contradiction|].
    eexists. split; [reflexivity|]. simpl.
    split; [reflexivity|].
    destruct (Z.ltb_spec 0 (dag.NumRetries p)),
             (Z.ltb_spec 0 (dag.PerTryTimeout p));
      repeat split; intros; try reflexivity; lia.
Qed.

End RetryEncoding.

(** A policy that retries on 5xx and leaves the count and the per-try
    timeout unspecified: both fields are left out. *)
Lemma retry_policy_encoding_witness :
  exists rp,
    envoy.retryPolicy examples.wire_Duration
      (examples.route [] None
         (Some {| dag.RetryOn := "5xx"; dag.NumRetries := 0; dag.PerTryTimeout := 0 |}))
    = Some rp
    /\ envoy.NumRetries rp = None
    /\ envoy.PerTryTimeout rp = None.
Proof.
  destruct (retry_policy_encoding examples.wire_Duration examples.wire_Clustername
              (examples.route [] None
                 (Some {| dag.RetryOn := "5xx"; dag.NumRetries := 0;
                          dag.PerTryTimeout := 0 |})))
    as (_ & _ & _ & H).
  destruct (H _ eq_refl) as (rp & Hrp & _ & Hn & _ & Ht & _); [discriminate|].
  exists rp. split; [exact Hrp|].
  split; [apply Hn; simpl; lia|].
  apply Ht. simpl. lia.
Defined.

(** The claim as worded fails: for a policy that retries on 5xx and
    leaves the count unspecified, the emitted policy has no number of
    retries at all, and so not the number 1. *)
Lemma retryPolicy_unspecified_count_omitted :
  exists rp,
    envoy.retryPolicy examples.wire_Duration
      (examples.route [] None
         (Some {| dag.RetryOn := "5xx"; dag.NumRetries := 0; dag.PerTryTimeout := 0 |}))
    = Some rp
    /\ envoy.NumRetries rp = None
    /\ envoy.NumRetries rp <> Some (envoy.protobuf_UInt32 1).
Proof. eexists. split; [reflexivity|]. split; [reflexivity|discriminate]. Qed.

(** ** Virtual hosts: adding routes *)

(** C10: [addRoute] panics unless the vertex is a [PrefixRoute] or a
    [RegexRoute].  For a prefix route it returns, and afterwards the
    route is the entry under its prefix, whatever was stored there
    before, and every other entry and the name are unchanged; likewise
    for a regex route and its regex. *)
Theorem addRoute_shapes (v : dag.VirtualHost) (route : dag.Vertex) :
  match route with
  | dag.VPrefixRoute r =>
      exists v', dag.addRoute v route = dag.Returns v'
        /\ dag.VirtualHost_Name v' = dag.VirtualHost_Name v
        /\ dag.routes v' !! dag.Prefix r = Some route
        /\ forall k, k <> dag.Prefix r -> dag.routes v' !! k = dag.routes v !! k
  | dag.VRegexRoute r =>
      exists v', dag.addRoute v route = dag.Returns v'
        /\ dag.VirtualHost_Name v' = dag.VirtualHost_Name v
        /\ dag.routes v' !! dag.Regex r = Some route
        /\ forall k, k <> dag.Regex r -> dag.routes v' !! k = dag.routes v !! k
  | _ => exists msg, dag.addRoute v route = dag.Panics msg
  end.
Proof.
  destruct route; simpl; try (eexists; reflexivity).
  - eexists. split; [reflexivity|]. simpl. split; [reflexivity|].
    split; [apply lookup_insert_eq|].
    intros k Hk. apply lookup_insert_ne. congruence.
  - eexists. split; [reflexivity|]. simpl. split; [reflexivity|].
    split; [apply lookup_insert_eq|].
    intros k Hk. apply lookup_insert_ne. congruence.
Qed.

(** ** The notification primitive: registration *)

Lemma observed_app (ch : contour.chan) (out1 out2 : list contour.send) :
  contour.observed ch (out1 ++ out2)
  = contour.observed ch out1 ++ contour.observed ch out2.
Proof. unfold contour.observed. by rewrite filter_app, fmap_app. Qed.

Lemma observed_other (ch ch' : contour.chan) (v : Z) :
  ch' <> ch -> contour.observed ch [(ch', v)] = [].
Proof.
  intros Hne. unfold contour.observed.
  rewrite filter_cons_False; [reflexivity|]. simpl. congruence.
Qed.

Lemma observed_same (ch : contour.chan) (v : Z) :
  contour.observed ch [(ch, v)] = [v].
Proof.
  unfold contour.observed. rewrite filter_cons_True; [reflexivity|]. reflexivity.
Qed.

(** Registrations of other channels send nothing to an enqueued waiter
    and leave it enqueued. *)
Lemma run_registers_other (ch : contour.chan) (hints : list string)
    (ks : list contour.call) :
  forall c,
    Forall (registers_other ch) ks ->
    contour.waiters c !! ch = Some hints ->
    contour.observed ch (contour.run c ks).2 = []
    /\ contour.waiters (contour.run c ks).1 !! ch = Some hints.
Proof.
  induction ks as [|k ks IH]; intros c Hks Hw; [done|].
  apply Forall_cons in Hks as [Hk Hks].
  destruct k as [ch' lst' hints'|]; [|done].
  simpl in Hk. simpl. unfold contour.Register.
  destruct (lst' <? contour.last c).
  - specialize (IH c Hks Hw).
    destruct (contour.run c ks) as [c2 out2]. simpl in *.
    destruct IH as [IH1 IH2]. split; [|done].
    change ((ch', contour.last c) :: out2) with ([(ch', contour.last c)] ++ out2).
    by rewrite observed_app, observed_other, IH1.
  - match goal with |- context [contour.run ?c1 ks] => specialize (IH c1 Hks) end.
    simpl in IH. rewrite lookup_insert_ne in IH by done. specialize (IH Hw).
    match goal with |- context [contour.run ?c1 ks] =>
      destruct (contour.run c1 ks) as [c2 out2] end.
    done.
Qed.

(** C8: a waiter whose last-seen version is below the counter receives
    the counter on its channel at once, and the [Cond], hence its set of
    waiters, is left as it was.  Otherwise nothing is sent, the channel
    is enqueued with its hints, and as long as only other channels
    register (no [Notify] happens) nothing is sent on it and it stays
    enqueued. *)
Theorem Register_rendezvous (c : contour.Cond) (ch : contour.chan) (lst : Z)
    (hints : list string) :
  (lst < contour.last c ->
     contour.Register c ch lst hints = (c, [(ch, contour.last c)]))
  /\ (contour.last c <= lst ->
     contour.Register c ch lst hints
       = ({| contour.waiters := <[ch := hints]> (contour.waiters c);
             contour.last := contour.last c |}, [])
     /\ forall ks, Forall (registers_other ch) ks ->
          contour.observed ch
            (contour.run (contour.Register c ch lst hints).1 ks).2 = []
          /\ contour.waiters
               (contour.run (contour.Register c ch lst hints).1 ks).1 !! ch
             = Some hints).
Proof.
  unfold contour.Register. split; intros H.
  - destruct (Z.ltb_spec lst (contour.last c)); [reflexivity|lia].
  - destruct (Z.ltb_spec lst (contour.last c)); [lia|].
    split; [reflexivity|]. intros ks Hks.
    apply run_registers_other; [done|]. simpl. apply lookup_insert_eq.
Qed.

(** At counter 3, a waiter that saw 1 fires at once; a waiter that saw 3
    is enqueued and hears nothing while another waiter registers. *)
Lemma Register_rendezvous_witness :
  contour.Register {| contour.waiters := ∅; contour.last := 3 |} 7%nat 1 ["a"]
    = ({| contour.waiters := ∅; contour.last := 3 |}, [(7%nat, 3)])
  /\ contour.observed 7%nat
       (contour.run
          (contour.Register {| contour.waiters := ∅; contour.last := 3 |}
             7%nat 3 ["a"]).1
          [contour.CallRegister 8%nat 0 []]).2 = [].
Proof.
  split.
  - apply (Register_rendezvous {| contour.waiters := ∅; contour.last := 3 |}
             7%nat 1 ["a"]). simpl. lia.
  - apply (Register_rendezvous {| contour.waiters := ∅; contour.last := 3 |}
             7%nat 3 ["a"]); [simpl; lia|].
    apply Forall_cons. split; [simpl; lia|apply Forall_nil; exact I].
Defined.

(** ** The object store: what triggers a rebuild *)

Lemma elem_of_range {V : Type} (m : gmap dag.Meta V) (x : V) :
  x ∈ dag.range m <-> exists k, m !! k = Some x.
Proof.
  unfold dag.range. rewrite list_elem_of_fmap. split.
  - intros [[k v] [-> H]]. exists k. by apply elem_of_map_to_list in H.
  - intros [k H]. exists (k, x). split; [done|]. by apply elem_of_map_to_list.
Qed.

Lemma existsb_elem_of {A : Type} (f : A -> bool) (l : list A) :
  existsb f l = true <-> exists x, x ∈ l /\ f x = true.
Proof.
  rewrite existsb_exists. split; intros [x [H1 H2]]; exists x; split; try done.
  - by apply list_elem_of_In.
  - by apply list_elem_of_In.
Qed.

Lemma ingress_names_service_spec (nm : string) (i : k8s.Ingress) :
  dag.ingress_names_service nm i = true <-> ingress_refers nm i.
Proof.
  unfold dag.ingress_names_service, ingress_refers.
  rewrite orb_true_iff, existsb_elem_of. split.
  - intros [H|(rule & Hr & H)].
    + destruct (k8s.Backend (k8s.ing_Spec i)) as [b|]; [|done].
      left. exists b. split; [done|]. by apply String.eqb_eq.
    + destruct (k8s.rule_HTTP rule) as [paths|] eqn:E; [|done].
      apply existsb_elem_of in H as (path & Hp & H).
      right. exists rule, paths, path. repeat split; try done. by apply String.eqb_eq.
  - intros [(b & -> & <-)|(rule & paths & path & Hr & E & Hp & <-)].
    + left. apply String.eqb_refl.
    + right. exists rule. split; [done|]. rewrite E.
      apply existsb_elem_of. exists path. split; [done|]. apply String.eqb_refl.
Qed.

Lemma spec_names_service_spec (nm : string) (s : apis.Spec) :
  dag.spec_names_service nm s = true <-> spec_refers nm s.
Proof.
  unfold dag.spec_names_service, spec_refers.
  rewrite orb_true_iff, existsb_elem_of. split.
  - intros [(route & Hr & H)|H].
    + apply existsb_elem_of in H as (svc & Hs & H).
      left. exists route, svc. repeat split; try done. by apply String.eqb_eq.
    + destruct (apis.spec_TCPProxy s) as [tcp|]; [|done].
      apply existsb_elem_of in H as (svc & Hs & H).
      right. exists tcp, svc. repeat split; try done. by apply String.eqb_eq.
  - intros [(route & svc & Hr & Hs & <-)|(tcp & svc & -> & Hs & <-)].
    + left. exists route. split; [done|].
      apply existsb_elem_of. exists svc. split; [done|]. apply String.eqb_refl.
    + right. apply existsb_elem_of. exists svc. split; [done|]. apply String.eqb_refl.
Qed.

Lemma serviceTriggersRebuild_spec (kc : dag.KubernetesCache) (service : k8s.Service) :
  dag.serviceTriggersRebuild kc service = true <-> service_referenced kc service.
Proof.
  unfold dag.serviceTriggersRebuild, service_referenced.
  rewrite !orb_true_iff, !existsb_elem_of.
  setoid_rewrite andb_true_iff. setoid_rewrite String.eqb_eq.
  setoid_rewrite elem_of_range.
  setoid_rewrite ingress_names_service_spec.
  setoid_rewrite spec_names_service_spec.
  split.
  - intros [[(i & [m Hm] & Hn & H)|(ir & [m Hm] & Hn & H)]|(p & [m Hm] & Hn & H)].
    + left. by exists m, i.
    + right; left. by exists m, ir.
    + right; right. by exists m, p.
  - intros [(m & i & Hm & Hn & H)|[(m & ir & Hm & Hn & H)|(m & p & Hm & Hn & H)]].
    + left; left. exists i. eauto.
    + left; right. exists ir. eauto.
    + right. exists p. eauto.
Qed.

Lemma append_nil_l (s : string) : "" +:+ s = s.
Proof. reflexivity. Qed.

Lemma append_cons (c : ascii) (a s : string) : String c a +:+ s = String c (a +:+ s).
Proof. reflexivity. Qed.

Lemma has_slash_mid (a b : string) : has_slash (a +:+ String "/" b) = true.
Proof.
  induction a as [|c a IH].
  - reflexivity.
  - rewrite append_cons. simpl. rewrite IH. apply orb_true_r.
Qed.

Lemma key_inj_cons (a b c d : string) :
  has_slash c = false -> has_slash d = false ->
  a +:+ String "/" b = c +:+ String "/" d -> a = c /\ b = d.
Proof.
  revert c. induction a as [|x a IH]; intros [|y c] Hc Hd;
    rewrite ?append_nil_l, ?append_cons; intros E.
  - by injection E as ->.
  - injection E as <- _. done.
  - injection E as -> E. rewrite <- E, has_slash_mid in Hd. done.
  - injection E as -> E. simpl in Hc. apply orb_false_iff in Hc as [_ Hc].
    destruct (IH c Hc Hd E) as [-> ->]. done.
Qed.

(** A key [namespace/name] determines its two parts when the parts on
    one side contain no [/]. *)
Lemma key_inj (a b c d : string) :
  has_slash c = false -> has_slash d = false ->
  a +:+ "/" +:+ b = c +:+ "/" +:+ d -> a = c /\ b = d.
Proof. exact (key_inj_cons a b c d). Qed.

Lemma elem_of_delegation_keys (key : string) (d : apis.TLSCertificateDelegation) :
  key ∈ dag.delegation_keys d <->
  exists cd n, cd ∈ apis.Delegations d /\ n ∈ apis.TargetNamespaces cd
               /\ key = n +:+ "/" +:+ apis.SecretName cd.
Proof.
  unfold dag.delegation_keys. rewrite list_elem_of_bind. split.
  - intros (cd & H & Hcd). apply list_elem_of_bind in H as (n & H & Hn).
    apply list_elem_of_singleton in H. by exists cd, n.
  - intros (cd & n & Hcd & Hn & ->). exists cd. split; [|done].
    apply list_elem_of_bind. exists n. split; [|done]. by apply list_elem_of_singleton.
Qed.

Lemma delegated_spec (kc : dag.KubernetesCache) (key : string) :
  dag.delegated (dag.delegations kc) key = true <->
  exists m d cd n,
    (dag.irdelegations kc !! m = Some d \/ dag.httpproxydelegations kc !! m = Some d)
    /\ cd ∈ apis.Delegations d /\ n ∈ apis.TargetNamespaces cd
    /\ key = n +:+ "/" +:+ apis.SecretName cd.
Proof.
  unfold dag.delegated, dag.delegations.
  rewrite bool_decide_eq_true, elem_of_union, !elem_of_list_to_set, !list_elem_of_bind.
  setoid_rewrite elem_of_delegation_keys. setoid_rewrite elem_of_range. split.
  - intros [(d & (cd & n & H) & [m Hm])|(d & (cd & n & H) & [m Hm])];
      exists m, d, cd, n; tauto.
  - intros (m & d & cd & n & [Hm|Hm] & H); [left|right]; exists d; eauto.
Qed.

(** The two lookups in the merged delegations, under the bare key and
    under the wildcard key, amount to a delegation to the namespace. *)
Lemma delegated_permits (kc : dag.KubernetesCache) (ns snm : string) :
  has_slash ns = false -> has_slash snm = false ->
  dag.delegated (dag.delegations kc) (ns +:+ "/" +:+ snm) = true
  \/ dag.delegated (dag.delegations kc) ("*/" +:+ snm) = true
  <-> permits kc ns snm.
Proof.
  intros Hns Hsnm. rewrite !delegated_spec. unfold permits. split.
  - intros [(m & d & cd & n & Hm & Hcd & Hn & E)|(m & d & cd & n & Hm & Hcd & Hn & E)].
    + symmetry in E. apply key_inj in E as [-> E]; [|done..].
      exists m, d, cd. eauto.
    + symmetry in E. apply (key_inj n _ "*") in E as [-> E]; [|done..].
      exists m, d, cd. eauto.
  - intros (m & d & cd & Hm & Hcd & <- & [Hn|Hn]).
    + left. by exists m, d, cd, ns.
    + right. by exists m, d, cd, "*"%string.
Qed.

Lemma root_names_secret_spec (kc : dag.KubernetesCache) (secret : k8s.Secret)
    (rns : string) (s : apis.Spec) :
  has_slash rns = false ->
  has_slash (k8s.Name (k8s.secret_meta secret)) = false ->
  dag.root_names_secret (dag.delegations kc) secret rns s = true <->
  exists vh tls, apis.spec_VirtualHost s = Some vh /\ apis.vh_TLS vh = Some tls
                 /\ tls_matched kc secret rns (apis.tls_SecretName tls).
Proof.
  intros Hrns Hsnm. unfold dag.root_names_secret, tls_matched.
  destruct (apis.spec_VirtualHost s) as [vh|].
  2: { split; [discriminate|]. intros (? & ? & ? & _). discriminate. }
  destruct (apis.vh_TLS vh) as [tls|] eqn:Etls.
  2: { split; [discriminate|]. intros (? & ? & [= <-] & ? & _). congruence. }
  rewrite !orb_true_iff, !andb_true_iff, !String.eqb_eq.
  pose proof (delegated_permits kc rns _ Hrns Hsnm) as Hperm. split.
  - intros H. exists vh, tls. split; [done|]. split; [done|]. tauto.
  - intros (? & tls' & [= <-] & Ht & H).
    rewrite Etls in Ht. injection Ht as <-. tauto.
Qed.

Lemma ingress_names_secret_spec (kc : dag.KubernetesCache) (secret : k8s.Secret)
    (i : k8s.Ingress) :
  has_slash (k8s.Namespace (k8s.ing_meta i)) = false ->
  has_slash (k8s.Name (k8s.secret_meta secret)) = false ->
  dag.ingress_names_secret (dag.delegations kc) secret i = true <->
  exists tls, tls ∈ k8s.TLS (k8s.ing_Spec i)
              /\ tls_matched kc secret (k8s.Namespace (k8s.ing_meta i))
                   (k8s.tls_SecretName tls).
Proof.
  intros Hins Hsnm. unfold dag.ingress_names_secret, tls_matched.
  rewrite !orb_true_iff, !andb_true_iff, !existsb_elem_of, !String.eqb_eq.
  setoid_rewrite String.eqb_eq.
  pose proof (delegated_permits kc _ _ Hins Hsnm) as Hperm. split.
  - intros [[(Hn & tls & Ht & E)|(Hd & tls & Ht & E)]|(Hd & tls & Ht & E)];
      exists tls; (split; [done|]); tauto.
  - intros (tls & Ht & [[Hn E]|[E Hd]]).
    + left; left. eauto.
    + apply Hperm in Hd as [Hd|Hd].
      * left; right. eauto.
      * right. eauto.
Qed.

(** The search of [secretTriggersRebuild] for a secret without a
    [ca.crt] entry finds exactly the TLS specs it matches. *)
Lemma secretTriggersRebuild_references (kc : dag.KubernetesCache) (secret : k8s.Secret) :
  well_named kc secret ->
  ~ has_ca secret ->
  dag.secretTriggersRebuild kc secret = true <-> secret_matched kc secret.
Proof.
  intros (Hsnm & Hi & Hir & Hp) Hca. unfold dag.secretTriggersRebuild.
  rewrite bool_decide_eq_false_2 by exact Hca.
  unfold secret_matched, some_tls.
  rewrite !orb_true_iff, !existsb_elem_of.
  setoid_rewrite elem_of_range. split.
  - intros [[(i & [m Hm] & H)|(ir & [m Hm] & H)]|(p & [m Hm] & H)].
    + apply ingress_names_secret_spec in H as (tls & Ht & H); [|by eapply Hi|done].
      left. by exists m, i, tls.
    + apply root_names_secret_spec in H as (vh & tls & Hv & Ht & H); [|by eapply Hir|done].
      right; left. by exists m, ir, vh, tls.
    + apply root_names_secret_spec in H as (vh & tls & Hv & Ht & H); [|by eapply Hp|done].
      right; right. by exists m, p, vh, tls.
  - intros [(m & i & tls & Hm & Ht & H)|[(m & ir & vh & tls & Hm & Hv & Ht & H)
                                        |(m & p & vh & tls & Hm & Hv & Ht & H)]].
    + left; left. exists i. split; [by exists m|].
      apply ingress_names_secret_spec; [by eapply Hi|done|]. by exists tls.
    + left; right. exists ir. split; [by exists m|].
      apply root_names_secret_spec; [by eapply Hir|done|]. by exists vh, tls.
    + right. exists p. split; [by exists m|].
      apply root_names_secret_spec; [by eapply Hp|done|]. by exists vh, tls.
Qed.

Lemma secretTriggersRebuild_ca (kc : dag.KubernetesCache) (secret : k8s.Secret) :
  has_ca secret -> dag.secretTriggersRebuild kc secret = true.
Proof.
  intros Hca. unfold dag.secretTriggersRebuild.
  by rewrite bool_decide_eq_true_2 by exact Hca.
Qed.

(** What the search matches is a reference. *)
Lemma tls_matched_refers (kc : dag.KubernetesCache) (secret : k8s.Secret)
    (rootns tlsname : string) :
  tls_matched kc secret rootns tlsname -> tls_refers kc secret rootns tlsname.
Proof.
  unfold tls_matched, tls_refers, tls_names.
  intros [[-> ->]|[-> H]]; split; auto.
Qed.

Lemma secret_matched_referenced (kc : dag.KubernetesCache) (secret : k8s.Secret) :
  secret_matched kc secret -> secret_referenced kc secret.
Proof.
  unfold secret_matched, secret_referenced, some_tls.
  intros [(m & i & tls & Hm & Ht & H)|[(m & ir & vh & tls & Hm & Hv & Ht & H)
                                      |(m & p & vh & tls & Hm & Hv & Ht & H)]];
    apply tls_matched_refers in H.
  - left. by exists m, i, tls.
  - right; left. by exists m, ir, vh, tls.
  - right; right. by exists m, p, vh, tls.
Qed.

(** C5: the root [default/www] names the TLS secret [default/secret] of
    its own namespace as [default/secret].  All names are as the API
    server admits them, the secret has no [ca.crt] entry and the TLS
    spec of the root refers to it from the secret's own namespace, yet
    [secretTriggersRebuild] returns false, and so does the [Insert] of
    the secret: from the secret's own namespace the search compares the
    bare name only, and compares [namespace/name] only under a
    delegation. *)
Theorem secretTriggersRebuild_misses_qualified_name :
  well_named store_examples.own_cache store_examples.own_secret
  /\ ~ has_ca store_examples.own_secret
  /\ secret_referenced store_examples.own_cache store_examples.own_secret
  /\ dag.secretTriggersRebuild store_examples.own_cache store_examples.own_secret
     = false
  /\ (dag.Insert store_examples.own_cache
        (dag.ObjSecret store_examples.own_secret)).1 = false.
Proof.
  split; [|split; [|split; [|split]]].
  - split; [reflexivity|]. split; [|split].
    + intros m i H. vm_compute in H. discriminate.
    + intros m ir H. vm_compute in H. discriminate.
    + intros m p H.
      change (dag.httpproxies store_examples.own_cache)
        with (<[dag.toMeta (apis.hp_meta store_examples.own_proxy)
                := store_examples.own_proxy]> (∅ : gmap dag.Meta apis.HTTPProxy)) in H.
      apply lookup_insert_Some in H as [[_ <-]|[_ H]]; [reflexivity|].
      rewrite lookup_empty in H. discriminate.
  - intros [v Hv]. vm_compute in Hv. discriminate.
  - right; right.
    exists (dag.toMeta (apis.hp_meta store_examples.own_proxy)), store_examples.own_proxy.
    eexists. eexists. split; [|split; [reflexivity|split; [reflexivity|]]].
    + change (dag.httpproxies store_examples.own_cache)
        with (<[dag.toMeta (apis.hp_meta store_examples.own_proxy)
                := store_examples.own_proxy]> (∅ : gmap dag.Meta apis.HTTPProxy)).
      apply lookup_insert_eq.
    + split; [right; reflexivity|left; reflexivity].
  - vm_compute. reflexivity.
  - vm_compute. reflexivity.
Qed.

(** ** The object store: insertion *)

Ltac insert_twice :=
  match goal with
  | |- context [dag.with_secrets] => unfold dag.with_secrets
  | |- context [dag.with_services] => unfold dag.with_services
  | |- context [dag.with_ingresses] => unfold dag.with_ingresses
  | |- context [dag.with_ingressroutes] => unfold dag.with_ingressroutes
  | |- context [dag.with_httpproxies] => unfold dag.with_httpproxies
  | |- context [dag.with_irdelegations] => unfold dag.with_irdelegations
  | |- context [dag.with_httpproxydelegations] => unfold dag.with_httpproxydelegations
  end; simpl; by rewrite insert_insert_eq.

Lemma with_secrets_twice kc m (x : k8s.Secret) :
  dag.with_secrets <[m := x]> (dag.with_secrets <[m := x]> kc)
  = dag.with_secrets <[m := x]> kc.
Proof. insert_twice. Qed.

Lemma with_services_twice kc m (x : k8s.Service) :
  dag.with_services <[m := x]> (dag.with_services <[m := x]> kc)
  = dag.with_services <[m := x]> kc.
Proof. insert_twice. Qed.

Lemma with_ingresses_twice kc m (x : k8s.Ingress) :
  dag.with_ingresses <[m := x]> (dag.with_ingresses <[m := x]> kc)
  = dag.with_ingresses <[m := x]> kc.
Proof. insert_twice. Qed.

Lemma with_ingressroutes_twice kc m (x : apis.IngressRoute) :
  dag.with_ingressroutes <[m := x]> (dag.with_ingressroutes <[m := x]> kc)
  = dag.with_ingressroutes <[m := x]> kc.
Proof. insert_twice. Qed.

Lemma with_httpproxies_twice kc m (x : apis.HTTPProxy) :
  dag.with_httpproxies <[m := x]> (dag.with_httpproxies <[m := x]> kc)
  = dag.with_httpproxies <[m := x]> kc.
Proof. insert_twice. Qed.

Lemma with_irdelegations_twice kc m (x : apis.TLSCertificateDelegation) :
  dag.with_irdelegations <[m := x]> (dag.with_irdelegations <[m := x]> kc)
  = dag.with_irdelegations <[m := x]> kc.
Proof. insert_twice. Qed.

Lemma with_httpproxydelegations_twice kc m (x : apis.TLSCertificateDelegation) :
  dag.with_httpproxydelegations <[m := x]> (dag.with_httpproxydelegations <[m := x]> kc)
  = dag.with_httpproxydelegations <[m := x]> kc.
Proof. insert_twice. Qed.

(** C6: inserting an object a second time returns what the first
    insertion returned and leaves the store as the first insertion left
    it (for an object the store rejects, both return false and leave the
    store alone). *)
Theorem Insert_idempotent (kc : dag.KubernetesCache) (obj : dag.Object) :
  dag.Insert (dag.Insert kc obj).2 obj = dag.Insert kc obj.
Proof.
  destruct obj as [s|s|i|ir|p|d|d|key o|kind m]; simpl; try reflexivity.
  - destruct (String.eqb (k8s.secret_Type s) k8s.SecretTypeServiceAccountToken) eqn:E1;
      simpl; rewrite ?E1; [reflexivity|].
    destruct (negb (String.eqb (k8s.secret_Type s) k8s.SecretTypeTLS)
              && negb (bool_decide (is_Some (k8s.secret_Data s !! "ca.crt")))) eqn:E2;
      simpl; rewrite ?E1, ?E2; [reflexivity|].
    by rewrite with_secrets_twice.
  - by rewrite with_services_twice.
  - destruct (negb (String.eqb (dag.ingressClass (k8s.ing_meta i)) "")
              && negb (String.eqb (dag.ingressClass (k8s.ing_meta i))
                         (dag.kc_ingressClass kc))) eqn:E;
      simpl; [by rewrite E|].
    change (dag.kc_ingressClass (dag.with_ingresses _ kc)) with (dag.kc_ingressClass kc).
    rewrite E. by rewrite with_ingresses_twice.
  - destruct (negb (String.eqb (dag.ingressClass (apis.ir_meta ir)) "")
              && negb (String.eqb (dag.ingressClass (apis.ir_meta ir))
                         (dag.kc_ingressClass kc))) eqn:E;
      simpl; [by rewrite E|].
    change (dag.kc_ingressClass (dag.with_ingressroutes _ kc))
      with (dag.kc_ingressClass kc).
    rewrite E. by rewrite with_ingressroutes_twice.
  - destruct (negb (String.eqb (dag.ingressClass (apis.hp_meta p)) "")
              && negb (String.eqb (dag.ingressClass (apis.hp_meta p))
                         (dag.kc_ingressClass kc))) eqn:E;
      simpl; [by rewrite E|].
    change (dag.kc_ingressClass (dag.with_httpproxies _ kc))
      with (dag.kc_ingressClass kc).
    rewrite E. by rewrite with_httpproxies_twice.
  - by rewrite with_irdelegations_twice.
  - by rewrite with_httpproxydelegations_twice.
Qed.

(** The claim as worded fails for a CA bundle: the empty store accepts
    [ca_secret] and nothing refers to it, yet [Insert] returns true. *)
Lemma Insert_unreferenced_ca_secret :
  secret_accepted store_examples.ca_secret
  /\ ~ secret_referenced examples.empty_cache store_examples.ca_secret
  /\ dag.secrets (dag.Insert examples.empty_cache
                    (dag.ObjSecret store_examples.ca_secret)).2
       !! dag.toMeta (k8s.secret_meta store_examples.ca_secret)
     = Some store_examples.ca_secret
  /\ (dag.Insert examples.empty_cache (dag.ObjSecret store_examples.ca_secret)).1 = true.
Proof.
  split; [|split; [|split]].
  - split; [discriminate|]. right. unfold has_ca. vm_compute. eauto.
  - intros [(m & i & tls & H & _)|[(m & ir & vh & tls & H & _)|(m & p & vh & tls & H & _)]];
      simpl in H; rewrite lookup_empty in H; discriminate.
  - vm_compute. reflexivity.
  - vm_compute. reflexivity.
Qed.

(** C9 (amended): [Insert] always stores a Service under its namespace
    and name, replacing what was there and nothing else, and returns
    whether the service is referenced: false when no Ingress,
    IngressRoute or HTTPProxy of its namespace names it, although the
    store has changed.  [Insert] stores an accepted Secret likewise;
    for a Secret with a [ca.crt] entry it returns true, whether or not
    anything refers to the secret, and for a Secret without one (names
    being as the API server admits them) it returns false when no TLS
    spec refers to it. *)
Theorem Insert_reports_rebuild (kc : dag.KubernetesCache) :
  (forall service : k8s.Service,
     let r := dag.Insert kc (dag.ObjService service) in
     r.2 = dag.with_services <[dag.toMeta (k8s.svc_meta service) := service]> kc
     /\ dag.services r.2 !! dag.toMeta (k8s.svc_meta service) = Some service
     /\ (forall m, m <> dag.toMeta (k8s.svc_meta service) ->
           dag.services r.2 !! m = dag.services kc !! m)
     /\ (dag.services kc !! dag.toMeta (k8s.svc_meta service) <> Some service ->
           r.2 <> kc)
     /\ (~ service_referenced kc service -> r.1 = false))
  /\ (forall secret : k8s.Secret,
     secret_accepted secret ->
     let r := dag.Insert kc (dag.ObjSecret secret) in
     r.2 = dag.with_secrets <[dag.toMeta (k8s.secret_meta secret) := secret]> kc
     /\ dag.secrets r.2 !! dag.toMeta (k8s.secret_meta secret) = Some secret
     /\ (forall m, m <> dag.toMeta (k8s.secret_meta secret) ->
           dag.secrets r.2 !! m = dag.secrets kc !! m)
     /\ (dag.secrets kc !! dag.toMeta (k8s.secret_meta secret) <> Some secret ->
           r.2 <> kc)
     /\ (has_ca secret -> r.1 = true)
     /\ (~ has_ca secret -> well_named kc secret ->
         ~ secret_referenced kc secret -> r.1 = false)).
Proof.
  split.
  - intros service r. subst r. simpl.
    split; [reflexivity|]. split; [apply lookup_insert_eq|].
    split; [intros m Hm; by apply lookup_insert_ne|].
    split.
    + intros Hne Heq. apply Hne. rewrite <- Heq at 1. simpl. apply lookup_insert_eq.
    + intros Hnot.
      change (dag.serviceTriggersRebuild (dag.with_services _ kc) service)
        with (dag.serviceTriggersRebuild kc service).
      apply not_true_is_false. by rewrite serviceTriggersRebuild_spec.
  - intros secret [Htok Hacc] r. subst r. simpl.
    destruct (String.eqb_spec (k8s.secret_Type secret) k8s.SecretTypeServiceAccountToken)
      as [E|_]; [contradiction|].
    assert (negb (String.eqb (k8s.secret_Type secret) k8s.SecretTypeTLS)
            && negb (bool_decide (is_Some (k8s.secret_Data secret !! "ca.crt"))) = false)
      as ->.
    { destruct Hacc as [->|Hca].
      - reflexivity.
      - unfold has_ca in Hca. rewrite (bool_decide_eq_true_2 _ Hca). apply andb_false_r. }
    simpl. split; [reflexivity|]. split; [apply lookup_insert_eq|].
    split; [intros m Hm; by apply lookup_insert_ne|].
    change (dag.secretTriggersRebuild (dag.with_secrets _ kc) secret)
      with (dag.secretTriggersRebuild kc secret).
    split; [|split].
    + intros Hne Heq. apply Hne. rewrite <- Heq at 1. simpl. apply lookup_insert_eq.
    + apply secretTriggersRebuild_ca.
    + intros Hca Hwf Hnot. apply not_true_is_false.
      rewrite secretTriggersRebuild_references by done.
      intros H. by apply Hnot, secret_matched_referenced.
Qed.

(** In the store with the root [roots/www], the service [roots/other]
    is reported as not needing a rebuild; in the empty store so is the
    TLS secret [certs/wild], while the CA bundle [default/ca] is
    reported as needing one. *)
Lemma Insert_reports_rebuild_witness :
  (dag.Insert store_examples.delegating_cache
     (dag.ObjService store_examples.other_service)).1 = false
  /\ (dag.Insert examples.empty_cache
        (dag.ObjSecret store_examples.wild_secret)).1 = false
  /\ (dag.Insert examples.empty_cache
        (dag.ObjSecret store_examples.ca_secret)).1 = true.
Proof.
  split.
  - destruct (Insert_reports_rebuild store_examples.delegating_cache) as [Hsvc _].
    destruct (Hsvc store_examples.other_service) as (_ & _ & _ & _ & H).
    apply H. clear Hsvc H.
    intros [(m & i & H & _)|[(m & ir & H & _)|(m & p & H & Hns & Hr)]].
    + vm_compute in H. discriminate.
    + vm_compute in H. discriminate.
    + change (dag.httpproxies store_examples.delegating_cache)
        with (<[dag.toMeta (apis.hp_meta store_examples.root_proxy)
                := store_examples.root_proxy]> (∅ : gmap dag.Meta apis.HTTPProxy)) in H.
      apply lookup_insert_Some in H as [[_ <-]|[_ H]];
        [|rewrite lookup_empty in H; discriminate].
      destruct Hr as [(route & svc & Hroute & Hsvc & Hname)
                     |(tcp & svc & Htcp & _)]; [|discriminate].
      simpl in Hroute. apply list_elem_of_singleton in Hroute as ->.
      simpl in Hsvc. apply list_elem_of_singleton in Hsvc as ->.
      discriminate.
  - destruct (Insert_reports_rebuild examples.empty_cache) as [_ Hsec]. split.
    + destruct (Hsec store_examples.wild_secret) as (_ & _ & _ & _ & _ & H).
      { split; [discriminate|]. by left. }
      apply H; clear Hsec H.
      * intros [v Hv]. vm_compute in Hv. discriminate.
      * split; [reflexivity|].
        split; [|split]; intros m x H; simpl in H; rewrite lookup_empty in H;
          discriminate.
      * intros [(m & i & tls & H & _)|[(m & ir & vh & tls & H & _)
                                      |(m & p & vh & tls & H & _)]];
          simpl in H; rewrite lookup_empty in H; discriminate.
    + destruct (Hsec store_examples.ca_secret) as (_ & _ & _ & _ & H & _).
      { split; [discriminate|]. right. unfold has_ca. vm_compute. eauto. }
      apply H. unfold has_ca. vm_compute. eauto.
Defined.

(** ** The notification primitive: versions *)

Lemma int_wrap_small (z : Z) : - 2 ^ 63 <= z < 2 ^ 63 -> contour.int_wrap z = z.
Proof. intros H. unfold contour.int_wrap. rewrite Z.mod_small; lia. Qed.




Lemma observed_cons (ch : contour.chan) (s : contour.send) (out : list contour.send) :
  contour.observed ch (s :: out)
  = (if decide (s.1 = ch) then [s.2] else []) ++ contour.observed ch out.
Proof.
  unfold contour.observed. rewrite filter_cons. by destruct (decide (s.1 = ch)).
Qed.

Section Wake.
Context (ch : contour.chan) (v : Z).
Context (P : contour.chan * list string -> Prop) `{!forall w, Decision (P w)}.

Local Abbreviation sends l := ((fun w : contour.chan * list string => (w.1, v)) <$> filter P l).

Lemma observed_wake_absent (l : list (contour.chan * list string)) :
  ch ∉ l.*1 -> contour.observed ch (sends l) = [].
Proof.
  induction l as [|[k h] l IH]; [done|].
  rewrite fmap_cons, not_elem_of_cons. simpl. intros [Hk Hl].
  rewrite filter_cons. destruct (decide (P (k, h))); [|by apply IH].
  rewrite fmap_cons, observed_cons. simpl.
  destruct (decide (k = ch)); [congruence|by apply IH].
Qed.

(** A [Notify] sends at most once on a channel: the waiters are the
    keys of a map. *)
Lemma observed_wake (l : list (contour.chan * list string)) :
  NoDup l.*1 ->
  contour.observed ch (sends l) = [] \/ contour.observed ch (sends l) = [v].
Proof.
  induction l as [|[k h] l IH]; [by left|].
  rewrite fmap_cons, NoDup_cons. simpl. intros [Hk Hl].
  rewrite filter_cons.
  destruct (decide (P (k, h))); [|by apply IH].
  rewrite fmap_cons, observed_cons. simpl.
  destruct (decide (k = ch)) as [->|]; [|by apply IH].
  right. by rewrite (observed_wake_absent l Hk).
Qed.

End Wake.


Lemma notifications_cons (k : contour.call) (ks : list contour.call) :
  contour.notifications (k :: ks) = notifies k + contour.notifications ks.
Proof.
  unfold contour.notifications, notifies. simpl.
  destruct (contour.is_Notify k); simpl; lia.
Qed.

Lemma notifications_nonneg (ks : list contour.call) : 0 <= contour.notifications ks.
Proof. unfold contour.notifications. lia. Qed.

Lemma run_cons (c : contour.Cond) (k : contour.call) (ks : list contour.call) :
  contour.run c (k :: ks)
  = ((contour.run (contour.step c k).1 ks).1,
     (contour.step c k).2 ++ (contour.run (contour.step c k).1 ks).2).
Proof.
  simpl. destruct (contour.step c k) as [c1 out1]. simpl.
  by destruct (contour.run c1 ks).
Qed.





(** ** Route encoding: weighted clusters *)

Lemma stable_insert_Permutation {A : Type} (less : A -> A -> bool) (x : A) (l : list A) :
  envoy.stable_insert less x l ≡ₚ x :: l.
Proof.
  induction l as [|y l IH]; simpl; [done|].
  destruct (less y x); [|done].
  rewrite IH. apply Permutation_swap.
Qed.

(** Sorting rearranges: nothing is added, dropped or changed. *)
Lemma sort_Stable_Permutation {A : Type} (less : A -> A -> bool) (l : list A) :
  envoy.sort_Stable less l ≡ₚ l.
Proof.
  unfold envoy.sort_Stable. induction l as [|x l IH]; simpl; [done|].
  by rewrite stable_insert_Permutation, IH.
Qed.

Section WeightedClusters.
Variable Clustername : dag.Cluster -> string.

Lemma total_no_wrap (cs : list dag.Cluster) :
  forall a : Z,
    0 <= a -> Forall is_uint32 cs -> a + sum_weights cs < 2 ^ 32 ->
    foldl (fun total cluster => envoy.uint32 (total + dag.Weight cluster)) a cs
    = a + sum_weights cs.
Proof.
  induction cs as [|c cs IH]; intros a Ha Hcs Hsum; simpl in *; [lia|].
  apply Forall_cons in Hcs as [[Hc0 Hc1] Hcs].
  assert (0 <= sum_weights cs) as Hnn.
  { clear -Hcs. induction Hcs as [|c cs [H0 _] _ IH]; simpl; lia. }
  unfold envoy.uint32 at 2. rewrite Z.mod_small by lia.
  rewrite IH; [lia|lia|done|lia].
Qed.

Lemma sum_weights_zero (cs : list dag.Cluster) :
  Forall is_uint32 cs ->
  sum_weights cs = 0 <-> Forall (fun c => dag.Weight c = 0) cs.
Proof.
  induction 1 as [|c cs [H0 H1] Hcs IH]; simpl; [by split; [constructor|]|].
  assert (0 <= sum_weights cs) as Hnn.
  { clear -Hcs. induction Hcs as [|c cs [H0 _] _ IH]; simpl; lia. }
  rewrite Forall_cons. split.
  - intros H. split; [lia|]. apply IH. lia.
  - intros [Hc Hall]. apply IH in Hall. lia.
Qed.

(** Away from the wrap-around of the 32-bit total the translation does
    what the comment in the code says: uniform weights when no weight is
    declared, the declared weights and their sum otherwise. *)
Lemma weightedClusters_without_wrap (cs : list dag.Cluster) :
  Forall is_uint32 cs ->
  sum_weights cs < 2 ^ 32 ->
  Z.of_nat (length cs) < 2 ^ 32 ->
  let wc := envoy.weightedClusters Clustername cs in
  (Forall (fun c => dag.Weight c = 0) cs ->
     Forall (fun cw => envoy.Value (envoy.Weight cw) = 1) (envoy.Clusters wc)
     /\ (envoy.Name <$> envoy.Clusters wc) ≡ₚ (Clustername <$> cs)
     /\ envoy.Value (envoy.TotalWeight wc) = Z.of_nat (length cs))
  /\ (~ Forall (fun c => dag.Weight c = 0) cs ->
     envoy.Clusters wc ≡ₚ (declared Clustername <$> cs)
     /\ envoy.Value (envoy.TotalWeight wc) = sum_weights cs).
Proof.
  intros Hcs Hsum Hlen wc. subst wc. unfold envoy.weightedClusters.
  rewrite total_no_wrap by (done || lia). rewrite Z.add_0_l.
  pose proof (sum_weights_zero cs Hcs) as Hzero.
  destruct (Z.eqb_spec (sum_weights cs) 0) as [E|E]; simpl.
  - split; [|tauto]. intros _. split; [|split].
    + rewrite sort_Stable_Permutation. rewrite Forall_forall.
      intros cw Hcw. apply list_elem_of_fmap in Hcw as (cw' & -> & _). reflexivity.
    + rewrite sort_Stable_Permutation.
      clear. induction cs as [|c cs IH]; simpl; [done|]. by rewrite IH.
    + unfold envoy.uint32. apply Z.mod_small. lia.
  - split; [tauto|]. intros _. split; [|done].
    by rewrite sort_Stable_Permutation.
Qed.

End WeightedClusters.

(** C4: the declared weights 2^31 and 2^31 are valid [uint32] values and
    are not all zero, but their 32-bit total wraps to 0, so both emitted
    weights are 1 and the emitted total is 2. *)
Theorem weightedClusters_wrapped_total :
  Forall is_uint32 heavy_clusters
  /\ ~ Forall (fun c => dag.Weight c = 0) heavy_clusters
  /\ envoy.weightedClusters examples.wire_Clustername heavy_clusters
     = {| envoy.Clusters :=
            [ {| envoy.Name := "default/a"; envoy.Weight := {| envoy.Value := 1 |} |};
              {| envoy.Name := "default/b"; envoy.Weight := {| envoy.Value := 1 |} |} ];
          envoy.TotalWeight := {| envoy.Value := 2 |} |}.
Proof.
  split; [|split].
  - repeat constructor; vm_compute; discriminate.
  - intros H. apply Forall_cons in H as [H _]. discriminate.
  - vm_compute. reflexivity.
Qed.

(** The same two clusters with the weights 1 and 3: the weights are
    emitted as declared, with total 4. *)
Lemma weightedClusters_without_wrap_example :
  envoy.weightedClusters examples.wire_Clustername
    [ examples.cluster "b" 3; examples.cluster "a" 1 ]
  = {| envoy.Clusters :=
         [ {| envoy.Name := "default/a"; envoy.Weight := {| envoy.Value := 1 |} |};
           {| envoy.Name := "default/b"; envoy.Weight := {| envoy.Value := 3 |} |} ];
       envoy.TotalWeight := {| envoy.Value := 4 |} |}.
Proof. vm_compute. reflexivity. Qed.

(** ** The event handler: updates that are skipped *)

(** The comparison of [onUpdate] does not look at resource versions. *)
Lemma masked_without_version (o : dag.Object) :
  contour.masked (without_version o) = contour.masked o.
Proof.
  induction o as [s|s|i|ir|p|d|d|key o IH|kind m]; simpl; try reflexivity.
  by rewrite IH.
Qed.

(** The claim as worded fails for an Ingress: when only the status of
    the stored Ingress [default/kuard] changes (its load balancer gets an
    address), [onUpdate] replaces the stored object and returns true. *)
Lemma onUpdate_ingress_status_only :
  let oldObj := dag.ObjIngress (update_examples.kuard_ingress "1" []) in
  let newObj := dag.ObjIngress (update_examples.kuard_ingress "1" ["10.0.0.1"]) in
  let source := (dag.Insert examples.empty_cache oldObj).2 in
  same_but_status_and_version oldObj newObj
  /\ (contour.onUpdate source (contour.opUpdate oldObj newObj)).1 = true
  /\ (contour.onUpdate source (contour.opUpdate oldObj newObj)).2 <> source.
Proof.
  split; [reflexivity|]. split; [vm_compute; reflexivity|].
  intros H.
  apply (f_equal (fun kc =>
           k8s.ing_Status <$>
             dag.ingresses kc !! {| dag.name := "kuard"; dag.namespace := "default" |})) in H.
  vm_compute in H. discriminate.
Qed.

(** The status of an HTTPProxy is not left out of the comparison
    either: an update that only sets it is processed. *)
Lemma onUpdate_httpproxy_status_only :
  let oldObj := dag.ObjHTTPProxy (update_examples.simple_httpproxy "1" no_status) in
  let newObj :=
    dag.ObjHTTPProxy (update_examples.simple_httpproxy "1" update_examples.valid) in
  let source := (dag.Insert examples.empty_cache oldObj).2 in
  same_but_status_and_version oldObj newObj
  /\ (contour.onUpdate source (contour.opUpdate oldObj newObj)).1 = true.
Proof. split; [reflexivity|vm_compute; reflexivity]. Qed.

(** C2 (amended): an update whose two objects differ at most in their
    resource version, or are IngressRoutes that differ at most in their
    status and resource version, returns false and leaves the object
    store as it was. *)
Theorem onUpdate_skips_version_and_ingressroute_status
    (source : dag.KubernetesCache) (oldObj newObj : dag.Object) :
  without_version oldObj = without_version newObj
  \/ (exists ir ir',
        oldObj = dag.ObjIngressRoute ir /\ newObj = dag.ObjIngressRoute ir'
        /\ same_but_status_and_version oldObj newObj) ->
  contour.onUpdate source (contour.opUpdate oldObj newObj) = (false, source).
Proof.
  intros H. simpl. unfold contour.cmp_Equal.
  rewrite bool_decide_eq_true_2; [reflexivity|].
  destruct H as [H|(ir & ir' & -> & -> & H)].
  - by rewrite <- (masked_without_version oldObj), H, masked_without_version.
  - exact H.
Qed.

(** The status writer marks the IngressRoute [default/simple] valid and
    the API server bumps its resource version: the update is skipped. *)
Lemma onUpdate_skips_version_and_ingressroute_status_witness :
  contour.onUpdate examples.empty_cache
    (contour.opUpdate
       (dag.ObjIngressRoute (update_examples.simple_ingressroute "1" no_status))
       (dag.ObjIngressRoute
          (update_examples.simple_ingressroute "2" update_examples.valid)))
  = (false, examples.empty_cache).
Proof.
  apply (onUpdate_skips_version_and_ingressroute_status examples.empty_cache).
  right. eexists _, _. split; [reflexivity|]. split; reflexivity.
Defined.

(** * Further properties of the same code *)

(** ** The object store: removal *)

Ltac unfold_with :=
  unfold dag.with_secrets, dag.with_services, dag.with_ingresses,
    dag.with_ingressroutes, dag.with_httpproxies, dag.with_irdelegations,
    dag.with_httpproxydelegations in *.

Lemma Remove_remove_key (kc : dag.KubernetesCache) (obj : dag.Object) :
  dag.Remove kc obj = remove_key kc (store_key obj).
Proof. induction obj; simpl; try reflexivity. assumption. Qed.

Lemma present_store_key (kc : dag.KubernetesCache) (obj : dag.Object) :
  present kc obj <-> (remove_key kc (store_key obj)).1 = true.
Proof.
  induction obj; simpl; rewrite ?bool_decide_eq_true; try tauto.
  split; [tauto|discriminate].
Qed.

Lemma remove_key_absent (kc : dag.KubernetesCache) (k : option (kind * dag.Meta)) :
  (remove_key kc k).1 = false -> remove_key kc k = (false, kc).
Proof.
  destruct k as [[[] m]|]; simpl; [..|reflexivity];
    intros H; apply bool_decide_eq_false in H; apply eq_None_not_Some in H;
    rewrite bool_decide_eq_false_2 by (rewrite H; apply is_Some_None);
    f_equal; destruct kc; unfold_with; simpl in *; f_equal; by apply delete_id.
Qed.

Lemma remove_key_twice (kc : dag.KubernetesCache) (k : option (kind * dag.Meta)) :
  remove_key (remove_key kc k).2 k = (false, (remove_key kc k).2).
Proof.
  apply remove_key_absent.
  destruct k as [[[] m]|]; simpl; [..|reflexivity];
    apply bool_decide_eq_false_2; rewrite lookup_delete_eq; apply is_Some_None.
Qed.

Lemma Remove_not_present (kc : dag.KubernetesCache) (obj : dag.Object) :
  ~ present kc obj -> dag.Remove kc obj = (false, kc).
Proof.
  intros H. rewrite Remove_remove_key. apply remove_key_absent.
  apply not_true_is_false. by rewrite <- present_store_key.
Qed.

(** X1: [Remove] acts on the kind, namespace and name alone: a stale copy
    of an object, or a tombstone around it, removes what the store holds
    under that key, and the result is true exactly when there was an
    entry. *)
Theorem Remove_by_key (kc : dag.KubernetesCache) (x y : dag.Object) :
  store_key x = store_key y ->
  dag.Remove kc x = dag.Remove kc y
  /\ ((dag.Remove kc x).1 = true <-> present kc y)
  /\ ~ present (dag.Remove kc x).2 y.
Proof.
  intros E. rewrite !Remove_remove_key, E. split; [reflexivity|].
  split; [by rewrite present_store_key|].
  rewrite present_store_key, remove_key_twice. discriminate.
Qed.

(** X2: removing an object that has no entry returns false and leaves
    the store as it is; so a second [Remove] of the same object always
    returns false and changes nothing. *)
Theorem Remove_absent (kc : dag.KubernetesCache) (obj : dag.Object) :
  (~ present kc obj -> dag.Remove kc obj = (false, kc))
  /\ dag.Remove (dag.Remove kc obj).2 obj = (false, (dag.Remove kc obj).2).
Proof.
  split; [apply Remove_not_present|].
  rewrite !Remove_remove_key. apply remove_key_twice.
Qed.

(** X3: inserting an object that has no entry and removing it again
    gives the store back as it was, whether or not [Insert] accepted the
    object. *)
Theorem Insert_Remove (kc : dag.KubernetesCache) (obj : dag.Object) :
  ~ present kc obj ->
  (dag.Remove (dag.Insert kc obj).2 obj).2 = kc.
Proof.
  intros Habs.
  assert (dag.Remove kc obj = (false, kc)) as Hrm by (by apply Remove_not_present).
  destruct obj as [s|s|i|ir|p|d|d|key o|knd m]; simpl in *;
    try (by rewrite Hrm); try reflexivity.
  - destruct (String.eqb (k8s.secret_Type s) k8s.SecretTypeServiceAccountToken);
      [by injection Hrm|].
    destruct (negb (String.eqb (k8s.secret_Type s) k8s.SecretTypeTLS)
              && negb (bool_decide (is_Some (k8s.secret_Data s !! "ca.crt"))));
      [by injection Hrm|].
    apply eq_None_not_Some in Habs.
    destruct kc; unfold_with; simpl in *; f_equal. by apply delete_insert_id.
  - apply eq_None_not_Some in Habs.
    destruct kc; unfold_with; simpl in *; f_equal. by apply delete_insert_id.
  - destruct (negb (String.eqb (dag.ingressClass (k8s.ing_meta i)) "")
              && negb (String.eqb (dag.ingressClass (k8s.ing_meta i))
                         (dag.kc_ingressClass kc)));
      [by injection Hrm|].
    apply eq_None_not_Some in Habs.
    destruct kc; unfold_with; simpl in *; f_equal. by apply delete_insert_id.
  - destruct (negb (String.eqb (dag.ingressClass (apis.ir_meta ir)) "")
              && negb (String.eqb (dag.ingressClass (apis.ir_meta ir))
                         (dag.kc_ingressClass kc)));
      [by injection Hrm|].
    apply eq_None_not_Some in Habs.
    destruct kc; unfold_with; simpl in *; f_equal. by apply delete_insert_id.
  - destruct (negb (String.eqb (dag.ingressClass (apis.hp_meta p)) "")
              && negb (String.eqb (dag.ingressClass (apis.hp_meta p))
                         (dag.kc_ingressClass kc)));
      [by injection Hrm|].
    apply eq_None_not_Some in Habs.
    destruct kc; unfold_with; simpl in *; f_equal. by apply delete_insert_id.
  - apply eq_None_not_Some in Habs.
    destruct kc; unfold_with; simpl in *; f_equal. by apply delete_insert_id.
  - apply eq_None_not_Some in Habs.
    destruct kc; unfold_with; simpl in *; f_equal. by apply delete_insert_id.
Qed.

(** ** The object store: what it holds *)

(** The class test of [Insert]. *)
Lemma class_test (kc : dag.KubernetesCache) (m : k8s.ObjectMeta) :
  negb (String.eqb (dag.ingressClass m) "")
  && negb (String.eqb (dag.ingressClass m) (dag.kc_ingressClass kc)) = false
  <-> class_admitted kc m.
Proof.
  unfold class_admitted.
  destruct (String.eqb_spec (dag.ingressClass m) "") as [->|H1]; simpl; [tauto|].
  destruct (String.eqb_spec (dag.ingressClass m) (dag.kc_ingressClass kc)) as [->|H2];
    simpl; [tauto|].
  split; [discriminate|tauto].
Qed.

(** The type test of [Insert]. *)
Lemma secret_test (s : k8s.Secret) :
  (String.eqb (k8s.secret_Type s) k8s.SecretTypeServiceAccountToken
   || negb (String.eqb (k8s.secret_Type s) k8s.SecretTypeTLS)
      && negb (bool_decide (is_Some (k8s.secret_Data s !! "ca.crt")))) = false
  <-> secret_accepted s.
Proof.
  unfold secret_accepted, has_ca.
  destruct (String.eqb_spec (k8s.secret_Type s) k8s.SecretTypeServiceAccountToken)
    as [E|E]; simpl; [split; [discriminate|tauto]|].
  destruct (String.eqb_spec (k8s.secret_Type s) k8s.SecretTypeTLS) as [E'|E']; simpl;
    [tauto|].
  destruct (decide (is_Some (k8s.secret_Data s !! "ca.crt"))) as [Hca|Hca].
  - rewrite (bool_decide_eq_true_2 _ Hca). simpl. tauto.
  - rewrite (bool_decide_eq_false_2 _ Hca). simpl. split; [discriminate|tauto].
Qed.

(** [Insert] either leaves the store alone or files the object, which
    then passed the filter, under its namespace and name. *)
Lemma Insert_cases (kc : dag.KubernetesCache) (obj : dag.Object) :
  (dag.Insert kc obj).2 = kc
  \/ match obj with
     | dag.ObjSecret s =>
         secret_accepted s
         /\ (dag.Insert kc obj).2
            = dag.with_secrets <[dag.toMeta (k8s.secret_meta s) := s]> kc
     | dag.ObjService s =>
         (dag.Insert kc obj).2
         = dag.with_services <[dag.toMeta (k8s.svc_meta s) := s]> kc
     | dag.ObjIngress i =>
         class_admitted kc (k8s.ing_meta i)
         /\ (dag.Insert kc obj).2
            = dag.with_ingresses <[dag.toMeta (k8s.ing_meta i) := i]> kc
     | dag.ObjIngressRoute ir =>
         class_admitted kc (apis.ir_meta ir)
         /\ (dag.Insert kc obj).2
            = dag.with_ingressroutes <[dag.toMeta (apis.ir_meta ir) := ir]> kc
     | dag.ObjHTTPProxy p =>
         class_admitted kc (apis.hp_meta p)
         /\ (dag.Insert kc obj).2
            = dag.with_httpproxies <[dag.toMeta (apis.hp_meta p) := p]> kc
     | dag.ObjIRDelegation d =>
         (dag.Insert kc obj).2
         = dag.with_irdelegations <[dag.toMeta (apis.del_meta d) := d]> kc
     | dag.ObjHPDelegation d =>
         (dag.Insert kc obj).2
         = dag.with_httpproxydelegations <[dag.toMeta (apis.del_meta d) := d]> kc
     | _ => False
     end.
Proof.
  destruct obj as [s|s|i|ir|p|d|d|key o|knd m]; simpl; try (by right); try (by left).
  - pose proof (secret_test s) as Hs.
    destruct (String.eqb (k8s.secret_Type s) k8s.SecretTypeServiceAccountToken);
      [by left|].
    destruct (negb (String.eqb (k8s.secret_Type s) k8s.SecretTypeTLS)
              && negb (bool_decide (is_Some (k8s.secret_Data s !! "ca.crt"))));
      [by left|].
    right. split; [by apply Hs|done].
  - pose proof (class_test kc (k8s.ing_meta i)) as Hc.
    destruct (negb _ && negb _); [by left|]. right. split; [by apply Hc|done].
  - pose proof (class_test kc (apis.ir_meta ir)) as Hc.
    destruct (negb _ && negb _); [by left|]. right. split; [by apply Hc|done].
  - pose proof (class_test kc (apis.hp_meta p)) as Hc.
    destruct (negb _ && negb _); [by left|]. right. split; [by apply Hc|done].
Qed.

Ltac stored_eq H :=
  lazymatch type of H with
  | _ /\ _ => destruct H as [? H]
  | _ => idtac
  end.

Ltac map_entry H :=
  simpl in H;
  first [ apply lookup_insert_Some in H as [[<- <-]|[_ H]]
        | apply lookup_delete_Some in H as [_ H] ].

Lemma Insert_keyed (kc : dag.KubernetesCache) (obj : dag.Object) :
  keyed kc -> keyed (dag.Insert kc obj).2.
Proof.
  intros Hk. destruct (Insert_cases kc obj) as [->|H]; [done|].
  destruct Hk as (H1 & H2 & H3 & H4 & H5 & H6 & H7).
  destruct obj as [s|s|i|ir|p|d|d|key o'|knd mm]; try done; stored_eq H; rewrite H;
    repeat split; intros m o Hl; try map_entry Hl; eauto.
Qed.

Lemma remove_key_keyed (kc : dag.KubernetesCache) (k : option (kind * dag.Meta)) :
  keyed kc -> keyed (remove_key kc k).2.
Proof.
  intros (H1 & H2 & H3 & H4 & H5 & H6 & H7).
  destruct k as [[[] m']|]; simpl; repeat split; intros m o Hl;
    try map_entry Hl; eauto.
Qed.

Lemma onUpdate_keyed (kc : dag.KubernetesCache) (o : contour.op) :
  keyed kc -> keyed (contour.onUpdate kc o).2.
Proof.
  intros Hk. destruct o as [obj|oldObj newObj|obj|]; simpl.
  - by apply Insert_keyed.
  - destruct (contour.cmp_Equal oldObj newObj); [done|].
    pose proof (remove_key_keyed kc (store_key oldObj) Hk) as Hk'.
    rewrite <- Remove_remove_key in Hk'.
    destruct (dag.Remove kc oldObj) as [r kc1]. simpl in Hk'.
    pose proof (Insert_keyed kc1 newObj Hk') as Hk''.
    by destruct (dag.Insert kc1 newObj).
  - rewrite Remove_remove_key. by apply remove_key_keyed.
  - done.
Qed.

(** X4: whatever operations the event handler processes, every entry of
    the store stays filed under the namespace and name of the object it
    holds. *)
Theorem handle_keyed (ops : list contour.op) (kc : dag.KubernetesCache) :
  keyed kc -> keyed (handle kc ops).
Proof.
  revert kc. induction ops as [|o ops IH]; intros kc Hk; [done|].
  simpl. apply IH. by apply onUpdate_keyed.
Qed.

Lemma kc_ingressClass_Insert (kc : dag.KubernetesCache) (obj : dag.Object) :
  dag.kc_ingressClass (dag.Insert kc obj).2 = dag.kc_ingressClass kc.
Proof.
  destruct (Insert_cases kc obj) as [->|H]; [done|].
  destruct obj; try done; stored_eq H; by rewrite H.
Qed.

Lemma kc_ingressClass_remove_key (kc : dag.KubernetesCache)
    (k : option (kind * dag.Meta)) :
  dag.kc_ingressClass (remove_key kc k).2 = dag.kc_ingressClass kc.
Proof. by destruct k as [[[] m']|]. Qed.

Lemma class_admitted_ext (kc kc' : dag.KubernetesCache) (m : k8s.ObjectMeta) :
  dag.kc_ingressClass kc' = dag.kc_ingressClass kc ->
  class_admitted kc m -> class_admitted kc' m.
Proof. unfold class_admitted. by intros ->. Qed.

Lemma Insert_filtered (kc : dag.KubernetesCache) (obj : dag.Object) :
  filtered kc -> filtered (dag.Insert kc obj).2.
Proof.
  intros Hf. pose proof (kc_ingressClass_Insert kc obj) as Hc.
  destruct (Insert_cases kc obj) as [->|H]; [done|].
  destruct Hf as (H1 & H2 & H3 & H4).
  destruct obj as [s|s|i|ir|p|d|d|key o'|knd mm]; try done; stored_eq H; rewrite H in *;
    refine (conj _ (conj _ (conj _ _))); intros m o Hl; try map_entry Hl;
    eauto using class_admitted_ext.
Qed.

Lemma remove_key_filtered (kc : dag.KubernetesCache) (k : option (kind * dag.Meta)) :
  filtered kc -> filtered (remove_key kc k).2.
Proof.
  intros (H1 & H2 & H3 & H4).
  pose proof (kc_ingressClass_remove_key kc k) as Hc.
  destruct k as [[[] m']|]; simpl in *;
    refine (conj _ (conj _ (conj _ _))); intros m o Hl;
    try map_entry Hl; eauto using class_admitted_ext.
Qed.

Lemma onUpdate_filtered (kc : dag.KubernetesCache) (o : contour.op) :
  filtered kc -> filtered (contour.onUpdate kc o).2.
Proof.
  intros Hk. destruct o as [obj|oldObj newObj|obj|]; simpl.
  - by apply Insert_filtered.
  - destruct (contour.cmp_Equal oldObj newObj); [done|].
    pose proof (remove_key_filtered kc (store_key oldObj) Hk) as Hk'.
    rewrite <- Remove_remove_key in Hk'.
    destruct (dag.Remove kc oldObj) as [r kc1]. simpl in Hk'.
    pose proof (Insert_filtered kc1 newObj Hk') as Hk''.
    by destruct (dag.Insert kc1 newObj).
  - rewrite Remove_remove_key. by apply remove_key_filtered.
  - done.
Qed.

(** X5: whatever operations the event handler processes, the store never
    comes to hold a service account token or another secret that is
    neither of type TLS nor carries a [ca.crt] entry, nor an Ingress,
    IngressRoute or HTTPProxy annotated with another ingress class than
    the cache's. *)
Theorem handle_filtered (ops : list contour.op) (kc : dag.KubernetesCache) :
  filtered kc -> filtered (handle kc ops).
Proof.
  revert kc. induction ops as [|o ops IH]; intros kc Hk; [done|].
  simpl. apply IH. by apply onUpdate_filtered.
Qed.

(** ** The event handler: updates that are processed *)

Lemma Insert_rejected (kc : dag.KubernetesCache) (obj : dag.Object) :
  ~ accepted kc obj -> dag.Insert kc obj = (false, kc).
Proof.
  destruct obj as [s|s|i|ir|p|d|d|key o|knd m]; simpl; intros H; try tauto.
  - rewrite <- secret_test in H. apply not_false_is_true in H.
    destruct (String.eqb (k8s.secret_Type s) k8s.SecretTypeServiceAccountToken);
      [done|]. simpl in H. by rewrite H.
  - rewrite <- class_test in H. apply not_false_is_true in H. by rewrite H.
  - rewrite <- class_test in H. apply not_false_is_true in H. by rewrite H.
  - rewrite <- class_test in H. apply not_false_is_true in H. by rewrite H.
Qed.

Lemma Insert_accepted_stored (kc : dag.KubernetesCache) (obj : dag.Object) :
  accepted kc obj -> stored (dag.Insert kc obj).2 obj.
Proof.
  destruct obj as [s|s|i|ir|p|d|d|key o|knd m]; simpl; intros H; try tauto;
    try apply lookup_insert_eq.
  - apply secret_test in H.
    destruct (String.eqb (k8s.secret_Type s) k8s.SecretTypeServiceAccountToken);
      [done|]. simpl in H. rewrite H. simpl. apply lookup_insert_eq.
  - apply class_test in H. rewrite H. simpl. apply lookup_insert_eq.
  - apply class_test in H. rewrite H. simpl. apply lookup_insert_eq.
  - apply class_test in H. rewrite H. simpl. apply lookup_insert_eq.
Qed.

Lemma stored_present (kc : dag.KubernetesCache) (obj : dag.Object) :
  stored kc obj -> present kc obj.
Proof. destruct obj; simpl; intros H; try done; by rewrite H. Qed.

(** Inserting over a removed entry of the same key is inserting. *)
Lemma Insert_after_remove_key (kc : dag.KubernetesCache) (obj : dag.Object) :
  accepted kc obj ->
  dag.Insert (remove_key kc (store_key obj)).2 obj = dag.Insert kc obj.
Proof.
  destruct obj as [s|s|i|ir|p|d|d|key o|knd m]; simpl; intros H; try tauto.
  - apply secret_test in H.
    destruct (String.eqb (k8s.secret_Type s) k8s.SecretTypeServiceAccountToken);
      [done|]. simpl in H. rewrite H.
    assert (dag.with_secrets <[dag.toMeta (k8s.secret_meta s) := s]>
              (dag.with_secrets (delete (dag.toMeta (k8s.secret_meta s))) kc)
            = dag.with_secrets <[dag.toMeta (k8s.secret_meta s) := s]> kc) as ->; [|done].
    unfold_with. simpl. by rewrite insert_delete_eq.
  - assert (dag.with_services <[dag.toMeta (k8s.svc_meta s) := s]>
              (dag.with_services (delete (dag.toMeta (k8s.svc_meta s))) kc)
            = dag.with_services <[dag.toMeta (k8s.svc_meta s) := s]> kc) as ->; [|done].
    unfold_with. simpl. by rewrite insert_delete_eq.
  - apply class_test in H.
    change (dag.kc_ingressClass (dag.with_ingresses _ kc)) with (dag.kc_ingressClass kc).
    rewrite H. f_equal. unfold_with. simpl. by rewrite insert_delete_eq.
  - apply class_test in H.
    change (dag.kc_ingressClass (dag.with_ingressroutes _ kc))
      with (dag.kc_ingressClass kc).
    rewrite H. f_equal. unfold_with. simpl. by rewrite insert_delete_eq.
  - apply class_test in H.
    change (dag.kc_ingressClass (dag.with_httpproxies _ kc))
      with (dag.kc_ingressClass kc).
    rewrite H. f_equal. unfold_with. simpl. by rewrite insert_delete_eq.
  - f_equal. unfold_with. simpl. by rewrite insert_delete_eq.
  - f_equal. unfold_with. simpl. by rewrite insert_delete_eq.
Qed.

(** X6: an update that is not skipped, between two objects of the same
    kind, namespace and name, the new one passing the filter of
    [Insert], leaves the store as inserting the new object alone would,
    and the store then holds the new object itself under that namespace
    and name; it reports a change if the old object had an entry or if
    [Insert] reports one. *)
Theorem onUpdate_replaces (kc : dag.KubernetesCache) (oldObj newObj : dag.Object) :
  contour.cmp_Equal oldObj newObj = false ->
  store_key oldObj = store_key newObj ->
  accepted kc newObj ->
  contour.onUpdate kc (contour.opUpdate oldObj newObj)
  = ((dag.Remove kc oldObj).1 || (dag.Insert kc newObj).1, (dag.Insert kc newObj).2)
  /\ stored (contour.onUpdate kc (contour.opUpdate oldObj newObj)).2 newObj
  /\ present (contour.onUpdate kc (contour.opUpdate oldObj newObj)).2 newObj.
Proof.
  intros Hcmp Hkey Hacc. simpl. rewrite Hcmp.
  rewrite Remove_remove_key, Hkey.
  pose proof (Insert_after_remove_key kc newObj Hacc) as Hins.
  destruct (remove_key kc (store_key newObj)) as [r kc1]. simpl in Hins.
  rewrite Hins. destruct (dag.Insert kc newObj) as [b kc2] eqn:E. simpl.
  split; [done|]. change kc2 with (b, kc2).2. rewrite <- E.
  split; [|apply stored_present]; by apply Insert_accepted_stored.
Qed.

(** X7: an update that is not skipped and whose new object does not pass
    the filter of [Insert] (an Ingress moved to another class, a secret
    turned into a service account token) acts as the removal of the old
    object. *)
Theorem onUpdate_rejected_removes (kc : dag.KubernetesCache)
    (oldObj newObj : dag.Object) :
  contour.cmp_Equal oldObj newObj = false ->
  ~ accepted (dag.Remove kc oldObj).2 newObj ->
  contour.onUpdate kc (contour.opUpdate oldObj newObj) = dag.Remove kc oldObj.
Proof.
  intros Hcmp Hrej. simpl. rewrite Hcmp.
  destruct (dag.Remove kc oldObj) as [r kc1]. simpl in *.
  rewrite (Insert_rejected kc1 newObj Hrej). by rewrite orb_false_r.
Qed.

(** X8: an update that is not skipped reports a change whenever the old
    object had an entry, whatever the new object is and whether or not
    anything refers to it. *)
Theorem onUpdate_present_rebuilds (kc : dag.KubernetesCache)
    (oldObj newObj : dag.Object) :
  contour.cmp_Equal oldObj newObj = false ->
  present kc oldObj ->
  (contour.onUpdate kc (contour.opUpdate oldObj newObj)).1 = true.
Proof.
  intros Hcmp Hp. simpl. rewrite Hcmp.
  assert ((dag.Remove kc oldObj).1 = true) as Hr.
  { rewrite Remove_remove_key. by apply present_store_key. }
  destruct (dag.Remove kc oldObj) as [r kc1]. simpl in Hr. subst r.
  by destruct (dag.Insert kc1 newObj).
Qed.

(** X21: an object that does not pass the filter of [Insert] (a tombstone
    or a value of another kind, a secret of the wrong type, an object of
    another ingress class) is not stored: [Insert] returns false and the
    store is as before, an entry filed earlier under the same namespace
    and name included. *)
Theorem Insert_rejected_unchanged (kc : dag.KubernetesCache) (obj : dag.Object) :
  ~ accepted kc obj -> dag.Insert kc obj = (false, kc).
Proof. exact (Insert_rejected kc obj). Qed.

(** ** The notification primitive: who is woken *)

Lemma observed_nil_iff (ch : contour.chan) (out : list contour.send) :
  contour.observed ch out = [] <-> forall s, s ∈ out -> s.1 <> ch.
Proof.
  induction out as [|s out IH]; [split; [by intros _ s ?%not_elem_of_nil|done]|].
  rewrite observed_cons. split.
  - intros H s' Hs'. destruct (decide (s.1 = ch)); [done|]. simpl in H.
    apply elem_of_cons in Hs' as [->|Hs']; [done|]. by apply IH.
  - intros H. destruct (decide (s.1 = ch)) as [E|_].
    + exfalso. apply (H s); [left|done].
    + simpl. apply IH. intros s' Hs'. apply H. by right.
Qed.

(** What one [Notify] does to one channel. *)
Lemma Notify_delivery (c : contour.Cond) (hints : list string) (ch : contour.chan) :
  let r := contour.Notify c hints in
  match contour.waiters c !! ch with
  | Some hs =>
      if contour.woken (list_to_set hints) hs
      then contour.observed ch r.2 = [contour.last r.1]
           /\ contour.waiters r.1 !! ch = None
      else contour.observed ch r.2 = []
           /\ contour.waiters r.1 !! ch = Some hs
  | None => contour.observed ch r.2 = [] /\ contour.waiters r.1 !! ch = None
  end.
Proof.
  simpl.
  set (v := contour.int_wrap (contour.last c + 1)).
  set (P := fun w : contour.chan * list string =>
              contour.woken (list_to_set hints) w.2 = true).
  assert (forall s, s ∈ ((fun w : contour.chan * list string => (w.1, v))
                          <$> filter P (map_to_list (contour.waiters c))) ->
                    s.1 = ch ->
                    exists hs, contour.waiters c !! ch = Some hs
                               /\ contour.woken (list_to_set hints) hs = true) as Hsent.
  { intros s Hs E. apply list_elem_of_fmap in Hs as ([k hs] & -> & Hw).
    apply list_elem_of_filter in Hw as [Hw Hin]. apply elem_of_map_to_list in Hin.
    simpl in E. subst k. by exists hs. }
  destruct (contour.waiters c !! ch) as [hs|] eqn:Hch.
  - destruct (contour.woken (list_to_set hints) hs) eqn:Hw.
    + split.
      * destruct (observed_wake ch v P (map_to_list (contour.waiters c))
                    (NoDup_fst_map_to_list _)) as [H|H]; [|done].
        exfalso. rewrite observed_nil_iff in H. apply (H (ch, v)); [|done].
        apply list_elem_of_fmap. exists (ch, hs). split; [done|].
        apply list_elem_of_filter. split; [done|]. by apply elem_of_map_to_list.
      * apply map_lookup_filter_None. right. intros hs' Hhs'. simpl.
        rewrite Hch in Hhs'. injection Hhs' as <-. by rewrite Hw.
    + split.
      * apply observed_nil_iff. intros s Hs E.
        destruct (Hsent s Hs E) as (hs' & [= <-] & Hw'). congruence.
      * apply map_lookup_filter_Some. by split.
  - split.
    + apply observed_nil_iff. intros s Hs E.
      by destruct (Hsent s Hs E) as (hs' & ? & _).
    + apply map_lookup_filter_None. by left.
Qed.

(** X9: a [Notify] sends the new counter exactly once to every waiter
    that registered no hints or a hint among those of the [Notify], and
    deletes it from the waiters; it sends nothing to any other channel
    and leaves the other waiters enqueued with their hints. *)
Theorem Notify_one_shot (c : contour.Cond) (hints : list string) (ch : contour.chan) :
  (forall hs, contour.waiters c !! ch = Some hs ->
     contour.woken (list_to_set hints) hs = true ->
     contour.observed ch (contour.Notify c hints).2
       = [contour.last (contour.Notify c hints).1]
     /\ contour.waiters (contour.Notify c hints).1 !! ch = None)
  /\ (forall hs, contour.waiters c !! ch = Some hs ->
     contour.woken (list_to_set hints) hs = false ->
     contour.observed ch (contour.Notify c hints).2 = []
     /\ contour.waiters (contour.Notify c hints).1 !! ch = Some hs)
  /\ (contour.waiters c !! ch = None ->
     contour.observed ch (contour.Notify c hints).2 = []
     /\ contour.waiters (contour.Notify c hints).1 !! ch = None).
Proof.
  pose proof (Notify_delivery c hints ch) as H. cbv zeta in H.
  split; [|split].
  - intros hs Hch Hw. rewrite Hch, Hw in H. exact H.
  - intros hs Hch Hw. rewrite Hch, Hw in H. exact H.
  - intros Hch. rewrite Hch in H. exact H.
Qed.

(** X10: a [Notify] without hints wakes the waiters that registered
    without hints and no others: a waiter that gave hints stays
    enqueued and is sent nothing. *)
Theorem Notify_without_hints (c : contour.Cond) (ch : contour.chan) (hs : list string) :
  contour.waiters c !! ch = Some hs ->
  (hs = [] ->
     contour.observed ch (contour.Notify c []).2 = [contour.last (contour.Notify c []).1]
     /\ contour.waiters (contour.Notify c []).1 !! ch = None)
  /\ (hs <> [] ->
     contour.observed ch (contour.Notify c []).2 = []
     /\ contour.waiters (contour.Notify c []).1 !! ch = Some hs).
Proof.
  intros Hch. pose proof (Notify_delivery c [] ch) as H. cbv zeta in H.
  rewrite Hch in H. split.
  - intros ->. exact H.
  - intros Hne.
    assert (contour.woken (list_to_set []) hs = false) as Hw.
    { destruct hs as [|h hs]; [done|]. simpl.
      apply not_true_is_false. intros Hex. apply existsb_exists in Hex as (x & _ & Hx).
      apply bool_decide_eq_true in Hx. set_solver. }
    rewrite Hw in H. exact H.
Qed.

(** X11: the counter counts the calls of [Notify]: after any calls it
    has grown by their number, whatever was registered in between (as
    long as the 64-bit counter does not overflow). *)
Theorem run_counts_notifications (ks : list contour.call) (c : contour.Cond) :
  - 2 ^ 63 <= contour.last c ->
  contour.last c + contour.notifications ks < 2 ^ 63 ->
  contour.last (contour.run c ks).1 = contour.last c + contour.notifications ks.
Proof.
  revert c. induction ks as [|k ks IH]; intros c Hlo Hhi.
  - unfold contour.notifications. simpl. lia.
  - rewrite notifications_cons in *. rewrite run_cons. simpl.
    pose proof (notifications_nonneg ks) as Hnn.
    assert (contour.last (contour.step c k).1 = contour.last c + notifies k) as Hk.
    { destruct k as [ch lst hints|hints]; unfold notifies in *; simpl in *.
      - unfold contour.Register. destruct (lst <? contour.last c); simpl; lia.
      - apply int_wrap_small. lia. }
    assert (0 <= notifies k) by (unfold notifies; destruct (contour.is_Notify k); lia).
    rewrite IH; lia.
Qed.

(** ** Route encoding: the order of weighted clusters *)

Lemma ascii_compare_refl (a : ascii) : Ascii.compare a a = Eq.
Proof. unfold Ascii.compare. apply N.compare_refl. Qed.

Lemma ascii_compare_lt_trans (a b c : ascii) :
  Ascii.compare a b = Lt -> Ascii.compare b c = Lt -> Ascii.compare a c = Lt.
Proof. unfold Ascii.compare. rewrite !N.compare_lt_iff. lia. Qed.

Lemma string_compare_refl (s : string) : String.compare s s = Eq.
Proof. induction s as [|a s IH]; simpl; [done|]. by rewrite ascii_compare_refl. Qed.

Lemma string_compare_lt_trans (s1 : string) :
  forall s2 s3 : string,
    String.compare s1 s2 = Lt -> String.compare s2 s3 = Lt -> String.compare s1 s3 = Lt.
Proof.
  induction s1 as [|a s1 IH]; intros [|b s2] [|c s3]; simpl; try done.
  destruct (Ascii.compare a b) eqn:Eab; try done;
    destruct (Ascii.compare b c) eqn:Ebc; try done; intros H1 H2.
  - apply Ascii.compare_eq_iff in Eab as ->. rewrite Ebc. eauto.
  - apply Ascii.compare_eq_iff in Eab as ->. by rewrite Ebc.
  - apply Ascii.compare_eq_iff in Ebc as <-. by rewrite Eab.
  - by rewrite (ascii_compare_lt_trans a b c).
Qed.

Lemma string_ltb_irrefl (s : string) : String.ltb s s = false.
Proof. unfold String.ltb. by rewrite string_compare_refl. Qed.

Lemma string_ltb_trans (s1 s2 s3 : string) :
  String.ltb s1 s2 = true -> String.ltb s2 s3 = true -> String.ltb s1 s3 = true.
Proof.
  unfold String.ltb.
  destruct (String.compare s1 s2) eqn:E12; try done.
  destruct (String.compare s2 s3) eqn:E23; try done.
  by rewrite (string_compare_lt_trans s1 s2 s3).
Qed.

Lemma string_ltb_total (s1 s2 : string) :
  String.ltb s1 s2 = false -> s1 <> s2 -> String.ltb s2 s1 = true.
Proof.
  unfold String.ltb. rewrite (String.compare_antisym s2 s1).
  destruct (String.compare s1 s2) eqn:E; simpl; try done.
  apply String.compare_eq_iff in E. congruence.
Qed.

Lemma Less_trans (a b c : envoy.ClusterWeight) :
  envoy.Less a b = true -> envoy.Less b c = true -> envoy.Less a c = true.
Proof.
  unfold envoy.Less.
  destruct (String.eqb_spec (envoy.Name a) (envoy.Name b)) as [Eab|Nab],
           (String.eqb_spec (envoy.Name b) (envoy.Name c)) as [Ebc|Nbc].
  - rewrite Eab, Ebc, String.eqb_refl. lia.
  - rewrite Eab. destruct (String.eqb_spec (envoy.Name b) (envoy.Name c)); done.
  - rewrite <- Ebc. destruct (String.eqb_spec (envoy.Name a) (envoy.Name b)); done.
  - intros H1 H2. pose proof (string_ltb_trans _ _ _ H1 H2) as H3.
    destruct (String.eqb_spec (envoy.Name a) (envoy.Name c)) as [Eac|_]; [|done].
    rewrite Eac, string_ltb_irrefl in H3. done.
Qed.

Lemma Less_irrefl (a : envoy.ClusterWeight) : envoy.Less a a = false.
Proof. unfold envoy.Less. rewrite String.eqb_refl. lia. Qed.

Lemma Less_total (a b : envoy.ClusterWeight) :
  envoy.Less a b = false -> envoy.Less b a = false -> a = b.
Proof.
  unfold envoy.Less. rewrite (String.eqb_sym (envoy.Name b)).
  destruct (String.eqb_spec (envoy.Name a) (envoy.Name b)) as [E|N].
  - intros H1 H2. destruct a as [na [va]], b as [nb [vb]]. simpl in *.
    f_equal; [done|]. f_equal. lia.
  - intros H1 H2. apply string_ltb_total in H1; [|done]. congruence.
Qed.

Lemma ordered_trans (a b c : envoy.ClusterWeight) :
  ordered a b -> ordered b c -> ordered a c.
Proof.
  unfold ordered. intros Hab Hbc. apply not_true_is_false. intros Hca.
  destruct (envoy.Less b c) eqn:Hbc'.
  - pose proof (Less_trans _ _ _ Hbc' Hca). congruence.
  - pose proof (Less_total _ _ Hbc' Hbc) as ->. congruence.
Qed.

Lemma ordered_of_Less (a b : envoy.ClusterWeight) :
  envoy.Less a b = true -> ordered a b.
Proof.
  unfold ordered. intros H. apply not_true_is_false. intros H'.
  pose proof (Less_trans _ _ _ H H') as Haa. by rewrite Less_irrefl in Haa.
Qed.

Lemma stable_insert_sorted (x : envoy.ClusterWeight) (l : list envoy.ClusterWeight) :
  StronglySorted ordered l -> StronglySorted ordered (envoy.stable_insert envoy.Less x l).
Proof.
  induction l as [|y l IH]; simpl; intros Hl.
  - repeat constructor.
  - apply StronglySorted_cons in Hl as [Hy Hl].
    destruct (envoy.Less y x) eqn:Hyx.
    + apply StronglySorted_cons. split; [|by apply IH].
      rewrite stable_insert_Permutation. constructor; [by apply ordered_of_Less|done].
    + apply StronglySorted_cons. split; [|by apply StronglySorted_cons].
      constructor; [done|]. eapply Forall_impl; [exact Hy|].
      intros z Hz. by apply (ordered_trans x y z).
Qed.

Lemma sort_Stable_sorted (l : list envoy.ClusterWeight) :
  StronglySorted ordered (envoy.sort_Stable envoy.Less l).
Proof.
  unfold envoy.sort_Stable. induction l as [|x l IH]; simpl; [constructor|].
  by apply stable_insert_sorted.
Qed.

Lemma sort_Stable_unique (l1 l2 : list envoy.ClusterWeight) :
  l1 ≡ₚ l2 -> envoy.sort_Stable envoy.Less l1 = envoy.sort_Stable envoy.Less l2.
Proof.
  intros Hp. apply (StronglySorted_unique_strong ordered).
  - intros a b _ _ Hab Hba. symmetry. by apply Less_total.
  - apply sort_Stable_sorted.
  - apply sort_Stable_sorted.
  - by rewrite !sort_Stable_Permutation.
Qed.

Lemma total_wrapped (cs : list dag.Cluster) :
  forall a : Z,
    foldl (fun total cluster => envoy.uint32 (total + dag.Weight cluster))
      (envoy.uint32 a) cs
    = envoy.uint32 (a + sum_weights cs).
Proof.
  induction cs as [|c cs IH]; intros a; simpl.
  - by rewrite Z.add_0_r.
  - unfold envoy.uint32 at 2 3. rewrite Zplus_mod_idemp_l.
    fold (envoy.uint32 (a + dag.Weight c)). rewrite IH. f_equal. lia.
Qed.

Lemma sum_weights_Permutation (cs cs' : list dag.Cluster) :
  cs ≡ₚ cs' -> sum_weights cs = sum_weights cs'.
Proof. induction 1; simpl; lia. Qed.

Lemma sum_emitted_Permutation (l l' : list envoy.ClusterWeight) :
  l ≡ₚ l' -> sum_emitted l = sum_emitted l'.
Proof. induction 1; simpl; lia. Qed.

Section WeightedOrder.
Variable Clustername : dag.Cluster -> string.

(** X12: the weighted clusters are emitted in ascending order of name,
    and of weight among equal names: no cluster sorts before one that
    precedes it in the list. *)
Theorem weightedClusters_sorted (cs : list dag.Cluster) :
  StronglySorted ordered (envoy.Clusters (envoy.weightedClusters Clustername cs)).
Proof. unfold envoy.weightedClusters. simpl. apply sort_Stable_sorted. Qed.

(** X13: the order in which a route lists its clusters does not show in
    the output: two lists with the same clusters give the same
    [WeightedCluster]. *)
Theorem weightedClusters_Permutation (cs cs' : list dag.Cluster) :
  cs ≡ₚ cs' ->
  envoy.weightedClusters Clustername cs = envoy.weightedClusters Clustername cs'.
Proof.
  intros Hp.
  pose proof (total_wrapped cs 0) as Ht. pose proof (total_wrapped cs' 0) as Ht'.
  change (envoy.uint32 0) with 0 in Ht, Ht'.
  unfold envoy.weightedClusters. rewrite Ht, Ht'.
  rewrite (sum_weights_Permutation cs cs' Hp), (Permutation_length Hp).
  f_equal. apply sort_Stable_unique.
  destruct (_ =? _); repeat apply Permutation_map; done.
Qed.

(** X14: every cluster of the route is emitted once, under its name,
    and the emitted total weight is the sum of the emitted weights
    modulo 2^32, also when the weights are replaced by 1. *)
Theorem weightedClusters_total (cs : list dag.Cluster) :
  let wc := envoy.weightedClusters Clustername cs in
  (envoy.Name <$> envoy.Clusters wc) ≡ₚ (Clustername <$> cs)
  /\ envoy.Value (envoy.TotalWeight wc)
     = envoy.uint32 (sum_emitted (envoy.Clusters wc)).
Proof.
  pose proof (total_wrapped cs 0) as Ht.
  change (envoy.uint32 0) with 0 in Ht. rewrite Z.add_0_l in Ht.
  unfold envoy.weightedClusters. rewrite Ht. simpl.
  rewrite (sum_emitted_Permutation _ _ (sort_Stable_Permutation _ _)).
  rewrite sort_Stable_Permutation.
  destruct (Z.eqb_spec (envoy.uint32 (sum_weights cs)) 0) as [E|E]; split.
  - clear. induction cs as [|c cs IH]; simpl; [done|]. by rewrite IH.
  - f_equal. clear. induction cs as [|c cs IH]; simpl; [done|]. rewrite <- IH. lia.
  - clear. induction cs as [|c cs IH]; simpl; [done|]. by rewrite IH.
  - f_equal. clear. induction cs as [|c cs IH]; simpl; [done|]. by rewrite <- IH.
Qed.

End WeightedOrder.

(** ** Route encoding: session affinity and single clusters *)

Section RouteAction.
Context {duration : Type}.
Variable protobuf_Duration : Z -> duration.
Variable Clustername : dag.Cluster -> string.

(** X15: the route action carries the session affinity cookie policy,
    once, exactly when some cluster of the route uses the [Cookie]
    strategy, however many do; otherwise it carries no hash policy. *)
Theorem hashPolicy_cookie (r : dag.Route) :
  envoy.RouteAction_HashPolicy (envoy.RouteRoute protobuf_Duration Clustername r)
    = envoy.hashPolicy protobuf_Duration r
  /\ ((exists c, c ∈ dag.Clusters r /\ dag.LoadBalancerStrategy c = "Cookie") ->
      envoy.hashPolicy protobuf_Duration r = [affinity_cookie protobuf_Duration])
  /\ ((forall c, c ∈ dag.Clusters r -> dag.LoadBalancerStrategy c <> "Cookie") ->
      envoy.hashPolicy protobuf_Duration r = []).
Proof.
  split; [reflexivity|]. unfold envoy.hashPolicy. split.
  - intros (c & Hc & E).
    assert (existsb (fun c => String.eqb (dag.LoadBalancerStrategy c) "Cookie")
              (dag.Clusters r) = true) as ->; [|reflexivity].
    apply existsb_elem_of. exists c. split; [done|]. by apply String.eqb_eq.
  - intros H.
    assert (existsb (fun c => String.eqb (dag.LoadBalancerStrategy c) "Cookie")
              (dag.Clusters r) = false) as ->; [|reflexivity].
    apply not_true_is_false. intros Hex.
    apply existsb_elem_of in Hex as (c & Hc & E). apply String.eqb_eq in E.
    by apply (H c).
Qed.

(** X16: for a route with exactly one cluster the action names that
    cluster and carries no weight: with a cluster name that does not
    depend on the weight, the weight of a lone cluster makes no
    difference to the route action. *)
Theorem RouteRoute_single_weight_ignored (r : dag.Route) (c : dag.Cluster) (w : Z) :
  Clustername (with_weight w c) = Clustername c ->
  envoy.RouteAction_ClusterSpecifier
    (envoy.RouteRoute protobuf_Duration Clustername (with_clusters [c] r))
    = envoy.RouteAction_Cluster (Clustername c)
  /\ envoy.RouteRoute protobuf_Duration Clustername (with_clusters [with_weight w c] r)
     = envoy.RouteRoute protobuf_Duration Clustername (with_clusters [c] r).
Proof.
  intros Hname. split; [reflexivity|].
  unfold envoy.RouteRoute. simpl. by rewrite Hname.
Qed.

End RouteAction.

(** ** Virtual hosts: how routes add up *)

(** X17: a virtual host to which a route has been added is valid, and
    the addition adds at most one route: none when a route with the same
    key was there. *)
Theorem addRoute_valid (v v' : dag.VirtualHost) (route : dag.Vertex) :
  dag.addRoute v route = dag.Returns v' ->
  dag.Valid v' = true
  /\ exists key, route_key route = Some key
     /\ size (dag.routes v')
        = match dag.routes v !! key with
          | Some _ => size (dag.routes v)
          | None => S (size (dag.routes v))
          end.
Proof.
  intros H.
  assert (exists key, route_key route = Some key
            /\ dag.routes v' = <[key := route]> (dag.routes v)) as (key & Hkey & Hr).
  { destruct route; simpl in H; try discriminate; injection H as <-; eauto. }
  split.
  - unfold dag.Valid. apply bool_decide_eq_true.
    rewrite Hr, map_size_insert. destruct (dag.routes v !! key) eqn:E; simpl; [|lia].
    assert (size (dag.routes v) <> 0%nat); [|lia].
    apply map_size_non_empty_iff. intros Hempty. rewrite Hempty in E.
    by rewrite lookup_empty in E.
  - exists key. split; [done|].
    rewrite Hr, map_size_insert. by destruct (dag.routes v !! key).
Qed.

(** X18: prefix routes and regex routes share one key space.  Of two
    routes added under the same key, be it a prefix and a regex, only
    the second is kept, as if the first had never been added; routes
    under different keys can be added in either order. *)
Theorem addRoute_twice (v : dag.VirtualHost) (r1 r2 : dag.Vertex) (k1 k2 : string) :
  route_key r1 = Some k1 -> route_key r2 = Some k2 ->
  (k1 = k2 -> addRoutes2 v r1 r2 = dag.addRoute v r2)
  /\ (k1 <> k2 -> addRoutes2 v r1 r2 = addRoutes2 v r2 r1).
Proof.
  intros H1 H2.
  assert (forall (w : dag.VirtualHost) (r : dag.Vertex) (k : string),
            route_key r = Some k ->
            dag.addRoute w r
            = dag.Returns {| dag.VirtualHost_Name := dag.VirtualHost_Name w;
                             dag.routes := <[k := r]> (dag.routes w) |}) as Hadd.
  { intros w r k Hk. destruct r; simpl in Hk; try discriminate; by injection Hk as <-. }
  unfold addRoutes2.
  rewrite (Hadd v r1 k1 H1), (Hadd v r2 k2 H2), (Hadd _ r2 k2 H2), (Hadd _ r1 k1 H1).
  simpl. split; intros Hk.
  - subst. by rewrite insert_insert_eq.
  - by rewrite (insert_insert_ne _ k1 k2).
Qed.

(** ** The object store: references and classes *)

(** X19: [serviceTriggersRebuild] returns true exactly when some stored
    Ingress, IngressRoute or HTTPProxy of the namespace of the service
    names the service: an Ingress in its default backend or in a path of
    a rule, an IngressRoute or HTTPProxy in a route or in its TCP
    proxy. *)
Theorem serviceTriggersRebuild_iff (kc : dag.KubernetesCache) (service : k8s.Service) :
  dag.serviceTriggersRebuild kc service = true <-> service_referenced kc service.
Proof. apply serviceTriggersRebuild_spec. Qed.

(** X23: with names as the API server admits them (no [/] in the name of
    the secret and in the namespaces of the stored Ingresses,
    IngressRoutes and HTTPProxies), [secretTriggersRebuild] returns true
    exactly when the secret has a [ca.crt] entry or the secret name of
    some TLS spec of a stored Ingress, IngressRoute root or HTTPProxy
    root is the bare name of the secret, the object being of the
    secret's namespace, or is [namespace/name] of the secret, a stored
    TLSCertificateDelegation of that secret name having the namespace of
    the object or the wildcard [*] among its target namespaces.  When it
    returns true for a secret without [ca.crt], some TLS spec refers to
    the secret. *)
Theorem secretTriggersRebuild_matches (kc : dag.KubernetesCache) (secret : k8s.Secret) :
  well_named kc secret ->
  (dag.secretTriggersRebuild kc secret = true <->
     has_ca secret \/ secret_matched kc secret)
  /\ (dag.secretTriggersRebuild kc secret = true ->
       has_ca secret \/ secret_referenced kc secret).
Proof.
  intros Hwf.
  assert (dag.secretTriggersRebuild kc secret = true <->
          has_ca secret \/ secret_matched kc secret) as Hiff.
  { destruct (decide (has_ca secret)) as [Hca|Hca].
    - split; [by left|]. intros _. by apply secretTriggersRebuild_ca.
    - rewrite secretTriggersRebuild_references by done. tauto. }
  split; [exact Hiff|].
  intros H. apply Hiff in H as [H|H]; [by left|].
  right. by apply secret_matched_referenced.
Qed.

(** The wildcard delegation lets the root in [roots] name [certs/wild],
    so a change of that secret triggers a rebuild. *)
Lemma secretTriggersRebuild_matches_witness :
  dag.secretTriggersRebuild store_examples.delegating_cache store_examples.wild_secret
    = true
  /\ (has_ca store_examples.wild_secret
      \/ secret_matched store_examples.delegating_cache store_examples.wild_secret).
Proof.
  assert (well_named store_examples.delegating_cache store_examples.wild_secret) as Hwf.
  { split; [reflexivity|]. split; [|split].
    - intros m i H. vm_compute in H. discriminate.
    - intros m ir H. vm_compute in H. discriminate.
    - intros m p H.
      change (dag.httpproxies store_examples.delegating_cache)
        with (<[dag.toMeta (apis.hp_meta store_examples.root_proxy)
                := store_examples.root_proxy]> (∅ : gmap dag.Meta apis.HTTPProxy)) in H.
      apply lookup_insert_Some in H as [[_ <-]|[_ H]]; [reflexivity|].
      rewrite lookup_empty in H. discriminate. }
  destruct (secretTriggersRebuild_matches store_examples.delegating_cache
              store_examples.wild_secret Hwf) as [Hiff _].
  assert (dag.secretTriggersRebuild store_examples.delegating_cache
            store_examples.wild_secret = true) as Ht by (vm_compute; reflexivity).
  split; [exact Ht|]. by apply Hiff.
Defined.

(** X20: of the three class annotations the first that is present
    decides, in the order [projectcontour.io/ingress.class],
    [contour.heptio.com/ingress.class], [kubernetes.io/ingress.class]:
    [Insert] accepts an Ingress exactly when that annotation is empty or
    names the class of the cache, whatever the later annotations say,
    and accepts it when none is present. *)
Theorem Insert_class_precedence (kc : dag.KubernetesCache) (i : k8s.Ingress) :
  let a := k8s.Annotations (k8s.ing_meta i) in
  let admits (c : string) := c = "" \/ c = dag.kc_ingressClass kc in
  let inserted := (dag.Insert kc (dag.ObjIngress i)).1 = true in
  (forall c, a !! "projectcontour.io/ingress.class" = Some c -> inserted <-> admits c)
  /\ (forall c, a !! "projectcontour.io/ingress.class" = None ->
        a !! "contour.heptio.com/ingress.class" = Some c -> inserted <-> admits c)
  /\ (forall c, a !! "projectcontour.io/ingress.class" = None ->
        a !! "contour.heptio.com/ingress.class" = None ->
        a !! "kubernetes.io/ingress.class" = Some c -> inserted <-> admits c)
  /\ (a !! "projectcontour.io/ingress.class" = None ->
        a !! "contour.heptio.com/ingress.class" = None ->
        a !! "kubernetes.io/ingress.class" = None -> inserted).
Proof.
  intros a admits inserted. subst a admits inserted.
  assert ((dag.Insert kc (dag.ObjIngress i)).1 = true
          <-> class_admitted kc (k8s.ing_meta i)) as Hins.
  { rewrite <- class_test. simpl. destruct (negb _ && negb _); simpl; split; done. }
  unfold class_admitted, dag.ingressClass in Hins. cbv zeta in Hins.
  split; [|split; [|split]].
  - intros c H. by rewrite H in Hins.
  - intros c H1 H2. by rewrite H1, H2 in Hins.
  - intros c H1 H2 H3. by rewrite H1, H2, H3 in Hins.
  - intros H1 H2 H3. rewrite H1, H2, H3 in Hins. apply Hins. by left.
Qed.

(** ** The properties at concrete inputs *)

Import handler_examples.

Lemma Remove_by_key_witness :
  dag.Remove kuard_cache kuard_tombstone
    = dag.Remove kuard_cache (dag.ObjIngress (update_examples.kuard_ingress "1" []))
  /\ (dag.Remove kuard_cache kuard_tombstone).1 = true.
Proof.
  destruct (Remove_by_key kuard_cache kuard_tombstone
              (dag.ObjIngress (update_examples.kuard_ingress "1" [])) eq_refl)
    as (H1 & H2 & _).
  split; [exact H1|]. apply H2. simpl. vm_compute. eauto.
Defined.

Lemma Remove_absent_witness :
  dag.Remove examples.empty_cache
    (dag.ObjIngress (update_examples.kuard_ingress "1" []))
  = (false, examples.empty_cache).
Proof.
  apply (Remove_absent examples.empty_cache).
  intros [x H]. vm_compute in H. discriminate.
Defined.

Lemma Insert_Remove_witness :
  (dag.Remove
     (dag.Insert examples.empty_cache (dag.ObjSecret store_examples.ca_secret)).2
     (dag.ObjSecret store_examples.ca_secret)).2
  = examples.empty_cache.
Proof.
  apply (Insert_Remove examples.empty_cache (dag.ObjSecret store_examples.ca_secret)).
  intros [x H]. vm_compute in H. discriminate.
Defined.

Lemma keyed_empty : keyed examples.empty_cache.
Proof.
  repeat split; intros m o H; simpl in H; rewrite lookup_empty in H; discriminate.
Qed.

Lemma filtered_empty : filtered examples.empty_cache.
Proof.
  refine (conj _ (conj _ (conj _ _)));
    intros m o H; simpl in H; rewrite lookup_empty in H; discriminate.
Qed.

Lemma handle_keyed_witness : keyed (handle examples.empty_cache events).
Proof. apply (handle_keyed events examples.empty_cache). exact keyed_empty. Defined.

Lemma handle_filtered_witness : filtered (handle examples.empty_cache events).
Proof. apply (handle_filtered events examples.empty_cache). exact filtered_empty. Defined.

Lemma onUpdate_replaces_witness :
  stored
    (contour.onUpdate kuard_cache
       (contour.opUpdate
          (dag.ObjIngress (update_examples.kuard_ingress "1" []))
          (dag.ObjIngress (update_examples.kuard_ingress "2" ["10.0.0.1"])))).2
    (dag.ObjIngress (update_examples.kuard_ingress "2" ["10.0.0.1"])).
Proof.
  apply (onUpdate_replaces kuard_cache
           (dag.ObjIngress (update_examples.kuard_ingress "1" []))
           (dag.ObjIngress (update_examples.kuard_ingress "2" ["10.0.0.1"]))).
  - vm_compute. reflexivity.
  - reflexivity.
  - left. reflexivity.
Defined.

Lemma onUpdate_rejected_removes_witness :
  contour.onUpdate kuard_cache
    (contour.opUpdate (dag.ObjIngress (update_examples.kuard_ingress "1" []))
                      (dag.ObjIngress nginx_ingress))
  = dag.Remove kuard_cache (dag.ObjIngress (update_examples.kuard_ingress "1" [])).
Proof.
  apply (onUpdate_rejected_removes kuard_cache).
  - vm_compute. reflexivity.
  - intros [H|H]; vm_compute in H; discriminate.
Defined.

Lemma onUpdate_present_rebuilds_witness :
  (contour.onUpdate
     (dag.Insert examples.empty_cache (dag.ObjService store_examples.other_service)).2
     (contour.opUpdate
        (dag.ObjService store_examples.other_service)
        (dag.ObjService
           {| k8s.svc_meta := examples.meta "roots" "other";
              k8s.svc_Ports := [80; 443]; k8s.svc_Status := [] |}))).1 = true.
Proof.
  apply onUpdate_present_rebuilds.
  - vm_compute. reflexivity.
  - simpl. vm_compute. eauto.
Defined.

Lemma Notify_one_shot_witness :
  contour.observed 2%nat (contour.Notify two_waiters ["y"]).2 = [5]
  /\ contour.observed 1%nat (contour.Notify two_waiters ["y"]).2 = []
  /\ contour.waiters (contour.Notify two_waiters ["y"]).1 !! 1%nat = Some ["x"]
  /\ contour.observed 3%nat (contour.Notify two_waiters ["y"]).2 = [].
Proof.
  split; [|split; [|split]].
  - destruct (Notify_one_shot two_waiters ["y"] 2%nat) as (H & _ & _).
    destruct (H []) as [H1 _]; [reflexivity|reflexivity|]. exact H1.
  - destruct (Notify_one_shot two_waiters ["y"] 1%nat) as (_ & H & _).
    destruct (H ["x"]) as [H1 _]; [reflexivity|reflexivity|]. exact H1.
  - destruct (Notify_one_shot two_waiters ["y"] 1%nat) as (_ & H & _).
    destruct (H ["x"]) as [_ H2]; [reflexivity|reflexivity|]. exact H2.
  - destruct (Notify_one_shot two_waiters ["y"] 3%nat) as (_ & _ & H).
    destruct H as [H1 _]; [reflexivity|]. exact H1.
Defined.

Lemma Notify_without_hints_witness :
  contour.observed 1%nat (contour.Notify two_waiters []).2 = []
  /\ contour.waiters (contour.Notify two_waiters []).1 !! 1%nat = Some ["x"].
Proof.
  destruct (Notify_without_hints two_waiters 1%nat ["x"] eq_refl) as [_ H].
  apply H. discriminate.
Defined.

Lemma run_counts_notifications_witness :
  contour.last (contour.run contour.Cond_zero stream_calls).1 = 3.
Proof.
  rewrite (run_counts_notifications stream_calls contour.Cond_zero).
  - reflexivity.
  - simpl. lia.
  - vm_compute. reflexivity.
Defined.

Lemma weightedClusters_Permutation_witness :
  envoy.weightedClusters examples.wire_Clustername
    [ examples.cluster "b" 3; examples.cluster "a" 1 ]
  = envoy.weightedClusters examples.wire_Clustername
    [ examples.cluster "a" 1; examples.cluster "b" 3 ].
Proof.
  apply (weightedClusters_Permutation examples.wire_Clustername). apply perm_swap.
Defined.

Lemma hashPolicy_cookie_witness :
  envoy.hashPolicy examples.wire_Duration
    (examples.route
       [ examples.cluster "a" 1;
         {| dag.Upstream := examples.upstream "b"; dag.Weight := 1;
            dag.Cluster_UpstreamValidation := None;
            dag.LoadBalancerStrategy := "Cookie";
            dag.Cluster_HealthCheckPolicy := None |} ] None None)
  = [ affinity_cookie examples.wire_Duration ]
  /\ envoy.hashPolicy examples.wire_Duration
       (examples.route [ examples.cluster "a" 1 ] None None) = [].
Proof.
  split.
  - apply (hashPolicy_cookie examples.wire_Duration examples.wire_Clustername).
    exists {| dag.Upstream := examples.upstream "b"; dag.Weight := 1;
              dag.Cluster_UpstreamValidation := None;
              dag.LoadBalancerStrategy := "Cookie";
              dag.Cluster_HealthCheckPolicy := None |}.
    split; [|reflexivity]. simpl. right. left.
  - apply (hashPolicy_cookie examples.wire_Duration examples.wire_Clustername).
    intros c Hc. simpl in Hc. apply list_elem_of_singleton in Hc as ->. discriminate.
Defined.

Lemma RouteRoute_single_weight_ignored_witness :
  envoy.RouteRoute examples.wire_Duration examples.wire_Clustername
    (with_clusters [ with_weight 90 (examples.cluster "a" 0) ]
       (examples.route [] None None))
  = envoy.RouteRoute examples.wire_Duration examples.wire_Clustername
    (with_clusters [ examples.cluster "a" 0 ] (examples.route [] None None)).
Proof.
  apply (RouteRoute_single_weight_ignored examples.wire_Duration
           examples.wire_Clustername). reflexivity.
Defined.

Lemma addRoute_valid_witness :
  dag.Valid
    {| dag.VirtualHost_Name := "www.example.com";
       dag.routes :=
         {[ "/" := dag.VPrefixRoute
                     {| dag.Prefix := "/";
                        dag.PrefixRoute_Route := examples.route [] None None |} ]} |}
  = true.
Proof.
  apply (addRoute_valid
           {| dag.VirtualHost_Name := "www.example.com"; dag.routes := ∅ |}
           _
           (dag.VPrefixRoute
              {| dag.Prefix := "/";
                 dag.PrefixRoute_Route := examples.route [] None None |})).
  reflexivity.
Defined.

Lemma addRoute_twice_witness :
  addRoutes2 {| dag.VirtualHost_Name := "www.example.com"; dag.routes := ∅ |}
    (dag.VPrefixRoute
       {| dag.Prefix := "/a"; dag.PrefixRoute_Route := examples.route [] None None |})
    (dag.VRegexRoute
       {| dag.Regex := "/a"; dag.RegexRoute_Route := examples.route [] None None |})
  = dag.addRoute {| dag.VirtualHost_Name := "www.example.com"; dag.routes := ∅ |}
      (dag.VRegexRoute
         {| dag.Regex := "/a"; dag.RegexRoute_Route := examples.route [] None None |}).
Proof.
  apply (addRoute_twice _ _ _ "/a" "/a"); reflexivity.
Defined.

Lemma Insert_class_precedence_witness :
  (dag.Insert examples.empty_cache
     (dag.ObjIngress
        (annotated_ingress
           {[ "projectcontour.io/ingress.class" := "contour";
              "kubernetes.io/ingress.class" := "nginx" ]}))).1 = true.
Proof.
  destruct (Insert_class_precedence examples.empty_cache
              (annotated_ingress
                 {[ "projectcontour.io/ingress.class" := "contour";
                    "kubernetes.io/ingress.class" := "nginx" ]})) as (H & _).
  apply (H "contour"); [reflexivity|]. right. reflexivity.
Defined.

Lemma Insert_rejected_unchanged_witness :
  dag.Insert kuard_cache (dag.ObjIngress nginx_ingress) = (false, kuard_cache)
  /\ dag.Insert examples.empty_cache (dag.ObjSecret token_secret)
     = (false, examples.empty_cache).
Proof.
  split.
  - apply (Insert_rejected_unchanged kuard_cache).
    intros [H|H]; vm_compute in H; discriminate.
  - apply (Insert_rejected_unchanged examples.empty_cache).
    intros [H _]. apply H. reflexivity.
Defined.

(** ** Virtual host configurations: domains *)

Lemma append_cons_ne (s t : string) (c : ascii) : s +:+ String c t <> s.
Proof.
  induction s as [|a s IH]; [discriminate|].
  rewrite append_cons. intros H. injection H as H. by apply IH.
Qed.

(** X22: the domains of a virtual host configuration are exactly the
    hostname followed by the hostname with any port, two different
    entries; for the hostname [*] they are the single domain [*].  The
    name is the hostname shortened to 60 characters and the routes are
    handed through unchanged. *)
Theorem VirtualHost_domains {R : Type} (hashname : Z -> string -> string)
    (hostname : string) (routes : list R) :
  let vh := envoy.VirtualHost hashname hostname routes in
  (hostname = "*" -> envoy.Domains vh = ["*"])
  /\ (hostname <> "*" -> envoy.Domains vh = [hostname; hostname +:+ ":*"])
  /\ hostname +:+ ":*" <> hostname
  /\ NoDup (envoy.Domains vh)
  /\ head (envoy.Domains vh) = Some hostname
  /\ (hostname +:+ ":*" ∈ envoy.Domains vh <-> hostname <> "*")
  /\ envoy.VirtualHost_Name vh = hashname 60 hostname
  /\ envoy.Routes vh = routes.
Proof.
  simpl. split; [by intros ->|].
  split; [intros Hne; by destruct (String.eqb_spec hostname "*")|].
  split; [apply append_cons_ne|].
  destruct (String.eqb_spec hostname "*") as [->|Hne]; simpl.
  - split; [repeat constructor; set_solver|]. split; [done|]. split; [|done].
    split; [|done]. intros H. apply list_elem_of_singleton in H. discriminate.
  - split.
    + apply NoDup_cons. split; [|apply NoDup_singleton].
      intros H. apply list_elem_of_singleton in H. symmetry in H.
      by apply append_cons_ne in H.
    + split; [done|]. split; [|done]. split; [done|]. intros _. right. left.
Qed.

(** The virtual host of [www.example.com], and the catch-all virtual
    host [*]. *)
Lemma VirtualHost_domains_witness :
  envoy.Domains (envoy.VirtualHost (fun _ name => name) "www.example.com" [1; 2])
    = ["www.example.com"; "www.example.com:*"]
  /\ envoy.Domains (envoy.VirtualHost (fun _ name => name) "*" [1; 2]) = ["*"].
Proof.
  split.
  - destruct (VirtualHost_domains (fun _ name => name) "www.example.com" [1; 2])
      as (_ & H & _).
    apply H. discriminate.
  - destruct (VirtualHost_domains (fun _ name => name) "*" [1; 2]) as (H & _).
    apply H. reflexivity.
Defined.
